(** * Course ranking analysis: a shallow embedding of [src/analyze_ranking.py]

    The script reads a table of survey responses, recognises the ranking
    columns by their header ([parse_columns]), flattens the three preference
    buckets of every respondent into one linear ranking
    ([calculate_rankings]) and aggregates the global ranks per course
    ([main]).

    Strings are [string]s over 8-bit characters (the code points 0..255),
    table cells are numbers or missing, and the Python dictionary [col_map]
    is an association list kept in insertion order. *)

From Stdlib Require Import List String Ascii Bool Arith ZArith Lia.
From Stdlib Require Import Permutation Sorted.
From Stdlib Require Import QArith Reals Qreals DecimalString.
Import ListNotations.

Close Scope Q_scope.
Open Scope string_scope.
Open Scope list_scope.

(** ** Regular expressions, as far as the header pattern uses them *)

Module Re.

(** The fragment of Python's [re] syntax that occurs in the pattern of
    [parse_columns]: literal text, the greedy [.*], alternation,
    concatenation and numbered capturing groups. *)
Inductive regex : Type :=
| Lit (p : string)
| DotStar
| Alt (r1 r2 : regex)
| Seq (r1 r2 : regex)
| Group (n : nat) (r : regex).

(** A match object: the text captured by each group, latest first. *)
Definition groups : Type := list (nat * string).

(** [.] matches every character except a line feed. *)
Definition is_newline (c : ascii) : bool := Ascii.eqb c "010"%char.

(** [lit p s] removes the literal [p] from the front of [s]. *)
Fixpoint lit (p s : string) : option string :=
  match p with
  | EmptyString => Some s
  | String a p' =>
      match s with
      | String b s' => if Ascii.eqb a b then lit p' s' else None
      | EmptyString => None
      end
  end.

(** Greedy [.*]: take as many characters as possible, then give them back
    one at a time until the continuation [k] succeeds. *)
Fixpoint dotstar {A : Type} (s : string) (k : string -> option A) : option A :=
  match s with
  | String c s' =>
      if is_newline c then k s
      else match dotstar s' k with
           | Some x => Some x
           | None => k s
           end
  | EmptyString => k s
  end.

(** The text between the start [s] of a group and the rest [s'] that the
    group left unread. *)
Definition consumed (s s' : string) : string :=
  substring 0 (String.length s - String.length s') s.

(** Backtracking matcher in continuation-passing style: alternatives are
    tried from left to right, [k] receives the unread text and the groups
    captured so far. *)
Fixpoint run {A : Type} (r : regex) (s : string) (g : groups)
         (k : string -> groups -> option A) : option A :=
  match r with
  | Lit p =>
      match lit p s with
      | Some s' => k s' g
      | None => None
      end
  | DotStar => dotstar s (fun s' => k s' g)
  | Alt r1 r2 =>
      match run r1 s g k with
      | Some x => Some x
      | None => run r2 s g k
      end
  | Seq r1 r2 => run r1 s g (fun s' g' => run r2 s' g' k)
  | Group n r => run r s g (fun s' g' => k s' ((n, consumed s s') :: g'))
  end.

(** [pattern.match]: a match that starts at the first character. *)
Definition match_here (r : regex) (s : string) : option groups :=
  run r s [] (fun _ g => Some g).

(** [pattern.search]: the match at the leftmost start position that has
    one. *)
Fixpoint search (r : regex) (s : string) : option groups :=
  match match_here r s with
  | Some g => Some g
  | None =>
      match s with
      | String _ s' => search r s'
      | EmptyString => None
      end
  end.

(** [m.group(n)]. *)
Fixpoint group (g : groups) (n : nat) : string :=
  match g with
  | [] => ""
  | (m, t) :: g' => if Nat.eqb m n then t else group g' n
  end.

End Re.

(** ** [str.strip] *)

(** The characters below 256 for which [str.isspace] holds. *)
Definition is_space (c : ascii) : bool :=
  let n := nat_of_ascii c in
  (Nat.leb 9 n && Nat.leb n 13) || (Nat.leb 28 n && Nat.leb n 32)
  || Nat.eqb n 133 || Nat.eqb n 160.

Fixpoint lstrip (s : string) : string :=
  match s with
  | String c s' => if is_space c then lstrip s' else s
  | EmptyString => EmptyString
  end.

Fixpoint rstrip (s : string) : string :=
  match s with
  | String c s' =>
      match rstrip s' with
      | EmptyString => if is_space c then EmptyString else String c EmptyString
      | r => String c r
      end
  | EmptyString => EmptyString
  end.

Definition strip (s : string) : string := rstrip (lstrip s).

(** ** The table read from the spreadsheet *)

(** A cell: missing ([NaN], what [pd.notna] rejects) or a number. *)
Inductive value : Type :=
| NaN
| Num (z : Z).

Definition notna (v : value) : bool :=
  match v with
  | NaN => false
  | Num _ => true
  end.

(** A row is the list of its cells, in the order of the column labels. *)
Definition Series : Type := list value.

(** A data frame as [pd.read_excel] returns it: the column labels, which
    [read_excel] keeps distinct, and the rows under the default index
    0, 1, 2, ... *)
Record DataFrame : Type := {
  columns : list string;
  rows : list Series
}.

(** [row[col]]: the cell under the label [col]. *)
Fixpoint getitem (cols : list string) (row : Series) (col : string) : value :=
  match cols, row with
  | c :: cols', v :: row' => if String.eqb c col then v else getitem cols' row' col
  | _, _ => NaN
  end.

Definition has_label (cols : list string) (col : string) : bool :=
  existsb (String.eqb col) cols.

(** [row.get(col, default)]. *)
Definition get (cols : list string) (row : Series) (col : string) (default : value) : value :=
  if has_label cols col then getitem cols row col else default.

(** ** [parse_columns] *)

Definition Most_Beneficial : string := "Most Beneficial".
Definition Neutral : string := "Neutral".
Definition Least_Beneficial : string := "Least Beneficial".

(** The compiled pattern of [parse_columns]: a greedy run of any characters,
    the literal [ - Ranks - ], group 1 with one of the three category names,
    the literal [ - ], group 2 with a greedy run of any characters, and the
    literal [ - Rank]. *)
Definition pattern : Re.regex :=
  Re.Seq Re.DotStar
 (Re.Seq (Re.Lit " - Ranks - ")
 (Re.Seq (Re.Group 1 (Re.Alt (Re.Lit Most_Beneficial)
                     (Re.Alt (Re.Lit Neutral) (Re.Lit Least_Beneficial))))
 (Re.Seq (Re.Lit " - ")
 (Re.Seq (Re.Group 2 Re.DotStar)
         (Re.Lit " - Rank"))))).

(** The dictionary [col_map]: column label to (category, course), in
    insertion order. *)
Definition col_map_t : Type := list (string * (string * string)).

(** [d[k] = v]: an existing key keeps its place and takes the new value, a
    new key goes to the end. *)
Fixpoint dict_set {V : Type} (d : list (string * V)) (k : string) (v : V) : list (string * V) :=
  match d with
  | [] => [(k, v)]
  | (k', v') :: d' =>
      if String.eqb k' k then (k, v) :: d' else (k', v') :: dict_set d' k v
  end.

(** The body of the loop of [parse_columns] for one header: the category
    and the stripped course when the pattern is found. *)
Definition parse_header (col : string) : option (string * string) :=
  match Re.search pattern col with
  | Some m => Some (Re.group m 1, strip (Re.group m 2))
  | None => None
  end.

Definition parse_columns_step (col_map : col_map_t) (col : string) : col_map_t :=
  match parse_header col with
  | Some meta => dict_set col_map col meta
  | None => col_map
  end.

Definition parse_columns (df : DataFrame) : col_map_t :=
  fold_left parse_columns_step (columns df) [].

(** ** [calculate_rankings] *)

(** [enumerate(l, i)]; with [i = 0] also the pairs that [iterrows] yields
    under the default index. *)
Fixpoint enumerate {A : Type} (i : nat) (l : list A) : list (nat * A) :=
  match l with
  | [] => []
  | x :: l' => (i, x) :: enumerate (S i) l'
  end.

(** One entry of the list [records]: a dictionary with the keys [Student],
    [Course] and [Global_Rank]. *)
Record record : Type := {
  Student : value;
  Course : string;
  Global_Rank : nat
}.

(** A bucket entry [(course, rank_val)]; only values that pass [pd.notna]
    are ever appended, so the raw rank is a number. *)
Definition entry : Type := (string * Z)%type.

(** The three lists a row is sorted into. *)
Record buckets : Type := {
  most_beneficial : list entry;
  neutral : list entry;
  least_beneficial : list entry
}.

Definition no_buckets : buckets :=
  {| most_beneficial := []; neutral := []; least_beneficial := [] |}.

(** The body of the loop over [col_map.items()]. *)
Definition bucket_step (cols : list string) (row : Series) (b : buckets)
           (item : string * (string * string)) : buckets :=
  let '(col, (category, course)) := item in
  match getitem cols row col with
  | Num rank_val =>
      if String.eqb category "Most Beneficial" then
        {| most_beneficial := most_beneficial b ++ [(course, rank_val)];
           neutral := neutral b;
           least_beneficial := least_beneficial b |}
      else if String.eqb category "Neutral" then
        {| most_beneficial := most_beneficial b;
           neutral := neutral b ++ [(course, rank_val)];
           least_beneficial := least_beneficial b |}
      else if String.eqb category "Least Beneficial" then
        {| most_beneficial := most_beneficial b;
           neutral := neutral b;
           least_beneficial := least_beneficial b ++ [(course, rank_val)] |}
      else b
  | NaN => b
  end.

Definition fill_buckets (cols : list string) (row : Series) (col_map : col_map_t) : buckets :=
  fold_left (bucket_step cols row) col_map no_buckets.

(** [list.sort(key=lambda x: x[1])] is a stable sort that compares keys with
    [<] only.  [insert x l] puts [x], which stood before every element of
    [l], in front of the first element whose key is not smaller. *)
Fixpoint insert (x : entry) (l : list entry) : list entry :=
  match l with
  | [] => [x]
  | y :: l' => if (snd y <? snd x)%Z then y :: insert x l' else x :: y :: l'
  end.

Definition sort_by_rank (l : list entry) : list entry :=
  fold_right insert [] l.

(** The body of each of the three loops that assign global ranks; the state
    is the list [records] and the counter [current_rank]. *)
Definition emit_step (student_id : value) (st : list record * nat) (e : entry)
  : list record * nat :=
  let '(records, current_rank) := st in
  (records ++ [{| Student := student_id; Course := fst e; Global_Rank := current_rank |}],
   current_rank + 1).

Definition emit (student_id : value) (bucket : list entry) (st : list record * nat)
  : list record * nat :=
  fold_left (emit_step student_id) bucket st.

(** [row.get('Response ID', idx)]. *)
Definition student_of (cols : list string) (idx : nat) (row : Series) : value :=
  get cols row "Response ID" (Num (Z.of_nat idx)).

(** The body of the loop over [df.iterrows()]. *)
Definition row_step (cols : list string) (col_map : col_map_t)
           (records : list record) (idx : nat) (row : Series) : list record :=
  let student_id := student_of cols idx row in
  let b := fill_buckets cols row col_map in
  let most_beneficial := sort_by_rank (most_beneficial b) in
  let neutral := sort_by_rank (neutral b) in
  let least_beneficial := sort_by_rank (least_beneficial b) in
  let current_rank := 1 in
  let st := emit student_id most_beneficial (records, current_rank) in
  let st := emit student_id neutral st in
  let st := emit student_id least_beneficial st in
  fst st.

Fixpoint iterrows (cols : list string) (col_map : col_map_t)
         (records : list record) (idx : nat) (rs : list Series) : list record :=
  match rs with
  | [] => records
  | row :: rs' => iterrows cols col_map (row_step cols col_map records idx row) (S idx) rs'
  end.

(** The long-form table, as the list of its rows. *)
Definition calculate_rankings (df : DataFrame) (col_map : col_map_t) : list record :=
  iterrows (columns df) col_map [] 0 (rows df).

(** The records one row contributes. *)
Definition row_records (cols : list string) (col_map : col_map_t)
           (idx : nat) (row : Series) : list record :=
  row_step cols col_map [] idx row.

(** ** Aggregation: [groupby('Course')['Global_Rank'].agg(['mean', 'count', 'std'])] *)

(** [groupby] sorts the group keys: [insert_key] keeps the list ascending
    (by code point) and free of duplicates. *)
Fixpoint insert_key (k : string) (ks : list string) : list string :=
  match ks with
  | [] => [k]
  | k' :: ks' =>
      match String.compare k k' with
      | Lt => k :: ks
      | Eq => ks
      | Gt => k' :: insert_key k ks'
      end
  end.

Definition group_keys (records : list record) : list string :=
  fold_right insert_key [] (map Course records).

(** The [Global_Rank] values of one group, in the order of the records. *)
Definition group (records : list record) (k : string) : list nat :=
  map Global_Rank (filter (fun r => String.eqb (Course r) k) records).

Definition groupby_Course (records : list record) : list (string * list nat) :=
  map (fun k => (k, group records k)) (group_keys records).

Definition total (xs : list nat) : Z := Z.of_nat (list_sum xs).

(** ['mean']: the sum over the number of values (a group is never empty). *)
Definition agg_mean (xs : list nat) : Q :=
  (inject_Z (total xs) / inject_Z (Z.of_nat (List.length xs)))%Q.

(** ['count']. *)
Definition agg_count (xs : list nat) : nat := List.length xs.

(** The sum of the squared deviations from the mean. *)
Definition squared_deviations (xs : list nat) : Q :=
  let m := agg_mean xs in
  fold_right Qplus 0%Q
    (map (fun x => ((inject_Z (Z.of_nat x) - m) * (inject_Z (Z.of_nat x) - m))%Q) xs).

(** The sample variance, with [n - 1] in the denominator. *)
Definition agg_var (xs : list nat) : Q :=
  (squared_deviations xs / inject_Z (Z.of_nat (List.length xs - 1)))%Q.

(** ['std']: the sample standard deviation, [None] for the NaN that pandas
    gives a group of fewer than two values. *)
Definition agg_std (xs : list nat) : option R :=
  if Nat.ltb (List.length xs) 2 then None else Some (sqrt (Q2R (agg_var xs))).

(** A row of [course_stats].  The columns [mean], [count] and [std] are the
    ones that [rename] later labels [Average Rank], [N] and [Std Dev]. *)
Record summary : Type := {
  course : string;
  mean : Q;
  count : nat;
  std : option R
}.

Definition agg (g : string * list nat) : summary :=
  {| course := fst g;
     mean := agg_mean (snd g);
     count := agg_count (snd g);
     std := agg_std (snd g) |}.

Definition course_stats_of (rankings_df : list record) : list summary :=
  map agg (groupby_Course rankings_df).

(** ** The files and the console *)

Inductive exn : Type :=
| FileNotFoundError
| ValueError.

(** The figure that [plt.savefig] writes: one bar per row of the table in
    the given order, and the text placed next to each bar. *)
Record figure : Type := {
  title : string;
  xlabel : string;
  ylabel : string;
  bars : list (string * Q);
  bar_labels : list (Q * nat * string)
}.

Inductive file : Type :=
| Workbook (df : DataFrame)
| Text (s : string)
| Image (fig : figure).

(** What a run does that can be seen from outside, in order. *)
Inductive event : Type :=
| Printed (s : string)
| Written (path : string) (f : file).

Record world : Type := {
  files : string -> option file;
  dirs : list string;
  trace : list event
}.

(** A computation that may raise: the outcome and the world it leaves. *)
Definition M (A : Type) : Type := world -> (A + exn) * world.

Definition ret {A : Type} (a : A) : M A := fun w => (inl a, w).

Definition raise {A : Type} (e : exn) : M A := fun w => (inr e, w).

Definition bind {A B : Type} (m : M A) (f : A -> M B) : M B :=
  fun w =>
    match m w with
    | (inl a, w') => f a w'
    | (inr e, w') => (inr e, w')
    end.

Notation "x <- m ;; f" := (bind m (fun x => f))
  (at level 61, m at next level, right associativity).
Notation "m ;; f" := (bind m (fun _ => f))
  (at level 61, right associativity).

Definition exn_eqb (e1 e2 : exn) : bool :=
  match e1, e2 with
  | FileNotFoundError, FileNotFoundError => true
  | ValueError, ValueError => true
  | _, _ => false
  end.

(** [try: m / except e: h]. *)
Definition try_except {A : Type} (m : M A) (e : exn) (h : M A) : M A :=
  fun w =>
    match m w with
    | (inl a, w') => (inl a, w')
    | (inr e', w') => if exn_eqb e e' then h w' else (inr e', w')
    end.

Definition print (s : string) : M unit :=
  fun w => (inl tt, {| files := files w; dirs := dirs w; trace := trace w ++ [Printed s] |}).

(** [os.makedirs(d, exist_ok=True)]. *)
Definition makedirs (d : string) : M unit :=
  fun w =>
    (inl tt,
     {| files := files w;
        dirs := if existsb (String.eqb d) (dirs w) then dirs w else dirs w ++ [d];
        trace := trace w |}).

(** [pd.read_excel(path)]: [FileNotFoundError] when there is no such file,
    [ValueError] when the file is not a workbook. *)
Definition read_excel (path : string) : M DataFrame :=
  fun w =>
    match files w path with
    | None => (inr FileNotFoundError, w)
    | Some (Workbook df) => (inl df, w)
    | Some _ => (inr ValueError, w)
    end.

(** Writing a whole file, as [open(path, 'w')] with [f.write] and as
    [plt.savefig(path)] do. *)
Definition write (path : string) (f : file) : M unit :=
  fun w =>
    (inl tt,
     {| files := fun p => if String.eqb p path then Some f else files w p;
        dirs := dirs w;
        trace := trace w ++ [Written path f] |}).

Definition str_of_nat (n : nat) : string := NilEmpty.string_of_uint (Nat.to_uint n).

(** [os.path.join]. *)
Definition path_join (d f : string) : string := d ++ "/" ++ f.

(** ** [main] *)

Section Main.

(** What the table and plotting libraries contribute to [main]:
    [DataFrame.sort_values(by='mean')], the two renderings of the table
    and the [.2f] format of a number. *)
Variable sort_values_by_mean : list summary -> list summary.
Variable to_string : list summary -> string.
Variable repr : list summary -> string.
Variable format_2f : Q -> string.

Definition newline : string := String "010"%char EmptyString.

Definition ranking_text (course_stats : list summary) : string :=
  ("Course Ranking (Based on Average Global Rank - Lower is Better)" ++ newline)
  ++ ("================================================================" ++ newline ++ newline)
  ++ to_string course_stats.

Definition plot (course_stats : list summary) : figure :=
  {| title := "Average Course Ranking (Lower Rank = More Beneficial)";
     xlabel := "Average Global Rank";
     ylabel := "Course";
     bars := map (fun s => (course s, mean s)) course_stats;
     bar_labels := map (fun iv => ((snd iv + (1 # 10))%Q, fst iv, format_2f (snd iv)))
                       (enumerate 0 (map mean course_stats)) |}.

Definition main : M unit :=
  let data_path := "data/data.xlsx" in
  let output_dir := "outputs" in
  makedirs output_dir ;;
  print ("Loading data from " ++ data_path ++ "...") ;;
  loaded <- try_except (df <- read_excel data_path ;; ret (Some df))
                       FileNotFoundError
                       (print ("Error: " ++ data_path ++ " not found.") ;; ret None) ;;
  match loaded with
  | None => ret tt
  | Some df =>
      let col_map := parse_columns df in
      match col_map with
      | [] => print "No ranking columns found."
      | _ :: _ =>
          print ("Found " ++ str_of_nat (List.length col_map) ++ " ranking columns.") ;;
          print "Calculating global rankings..." ;;
          let rankings_df := calculate_rankings df col_map in
          match rankings_df with
          | [] => print "No rankings could be calculated."
          | _ :: _ =>
              let course_stats := course_stats_of rankings_df in
              let course_stats := sort_values_by_mean course_stats in
              let ranking_text_path := path_join output_dir "ranking.txt" in
              write ranking_text_path (Text (ranking_text course_stats)) ;;
              print ("Ranking text saved to " ++ ranking_text_path) ;;
              print (repr course_stats) ;;
              print "Generating visualization..." ;;
              let plot_path := path_join output_dir "rank_order.png" in
              write plot_path (Image (plot course_stats)) ;;
              print ("Ranking plot saved to " ++ plot_path)
          end
      end
  end.

(** What a run prints and writes, given what is under the input path. *)
Definition events_of (input : option file) : list event :=
  Printed "Loading data from data/data.xlsx..." ::
  match input with
  | None => [Printed "Error: data/data.xlsx not found."]
  | Some (Workbook df) =>
      match parse_columns df with
      | [] => [Printed "No ranking columns found."]
      | _ :: _ =>
          Printed ("Found " ++ str_of_nat (List.length (parse_columns df))
                   ++ " ranking columns.")
          :: Printed "Calculating global rankings..."
          :: match calculate_rankings df (parse_columns df) with
             | [] => [Printed "No rankings could be calculated."]
             | _ :: _ =>
                 let course_stats :=
                   sort_values_by_mean
                     (course_stats_of (calculate_rankings df (parse_columns df))) in
                 [Written "outputs/ranking.txt" (Text (ranking_text course_stats));
                  Printed "Ranking text saved to outputs/ranking.txt";
                  Printed (repr course_stats);
                  Printed "Generating visualization...";
                  Written "outputs/rank_order.png" (Image (plot course_stats));
                  Printed "Ranking plot saved to outputs/rank_order.png"]
             end
      end
  | Some _ => []
  end.

End Main.

(** ** Vocabulary of the statements *)

(** A text without line feed: what a run of [.] can cover. *)
Fixpoint one_line (s : string) : bool :=
  match s with
  | EmptyString => true
  | String c s' => negb (Re.is_newline c) && one_line s'
  end.

Definition is_category (cat : string) : Prop :=
  cat = Most_Beneficial \/ cat = Neutral \/ cat = Least_Beneficial.

(** [h] reads: some text, [ - Ranks - ], a category, [ - ], a course on one
    line, [ - Rank], some text. *)
Definition ranking_header (h before cat c after : string) : Prop :=
  h = (before ++ " - Ranks - " ++ cat ++ " - " ++ c ++ " - Rank" ++ after)%string
  /\ is_category cat /\ one_line c = true.

(** A ranking column whose cell in [row] is not missing. *)
Definition present (cols : list string) (row : Series)
           (item : string * (string * string)) : bool :=
  notna (getitem cols row (fst item)).

(** The number K of non-missing ranking entries of a row. *)
Definition non_missing (cols : list string) (col_map : col_map_t) (row : Series) : nat :=
  List.length (filter (present cols row) col_map).

(** The entries of one category that a row has, in the order in which the
    columns are met. *)
Definition entries_of (cols : list string) (row : Series) (cat : string)
           (col_map : col_map_t) : list entry :=
  flat_map
    (fun item : string * (string * string) =>
       match getitem cols row (fst item) with
       | Num v => if String.eqb (fst (snd item)) cat then [(snd (snd item), v)] else []
       | NaN => []
       end)
    col_map.

(** The records of a bucket that is given the global ranks [n], [n + 1], ... *)
Fixpoint numbered (student_id : value) (n : nat) (l : list entry) : list record :=
  match l with
  | [] => []
  | e :: l' =>
      {| Student := student_id; Course := fst e; Global_Rank := n |}
        :: numbered student_id (S n) l'
  end.

(** Ascending raw rank. *)
Definition by_rank (x y : entry) : Prop := (snd x <= snd y)%Z.

(** The entries with raw rank [v]. *)
Definition with_rank (v : Z) (e : entry) : bool := (snd e =? v)%Z.

(** [r] lists the entries of [bucket] by ascending raw rank, entries of
    equal raw rank in the order they have in [bucket], under the global
    ranks [start], [start + 1], ... *)
Definition ranked_from (bucket : list entry) (start : nat) (r : list record) : Prop :=
  exists sorted,
    Permutation bucket sorted
    /\ StronglySorted by_rank sorted
    /\ (forall v, filter (with_rank v) sorted = filter (with_rank v) bucket)
    /\ map Course r = map fst sorted
    /\ map Global_Rank r = seq start (List.length sorted).

(** Every entry of the dictionary is what [parse_header] reads from its key. *)
Definition agrees (d : col_map_t) : Prop :=
  forall col meta, In (col, meta) d -> parse_header col = Some meta.

(** The headers that the pattern finds, in the order of the table, each
    with what [parse_header] reads from it. *)
Definition ranking_columns (cols : list string) : col_map_t :=
  flat_map (fun c => match parse_header c with
                     | Some meta => [(c, meta)]
                     | None => []
                     end) cols.

(** The identifier [calculate_rankings] is to use for the row at position
    [idx]: the cell under [Response ID] when the table has such a column,
    the position otherwise. *)
Definition respondent_id (cols : list string) (idx : nat) (row : Series) : value :=
  if has_label cols "Response ID" then getitem cols row "Response ID"
  else Num (Z.of_nat idx).

(** The strict order of the group keys. *)
Definition slt (a b : string) : Prop := String.compare a b = Lt.

(** Three records of one course with the global ranks 1, 2 and 3. *)
Definition three_ranks : list record :=
  [ {| Student := Num 0; Course := "Audit"; Global_Rank := 1 |};
    {| Student := Num 1; Course := "Audit"; Global_Rank := 2 |};
    {| Student := Num 2; Course := "Audit"; Global_Rank := 3 |} ].

(** The file that the trace [t] writes last under [path], if it writes one. *)
Fixpoint written (path : string) (t : list event) : option file :=
  match t with
  | [] => None
  | Written p f :: t' =>
      match written path t' with
      | Some f' => Some f'
      | None => if String.eqb path p then Some f else None
      end
  | Printed _ :: t' => written path t'
  end.

(** A table in which two ranking columns name the same course. *)
Definition shared_course : DataFrame :=
  {| columns := ["Q1 - Ranks - Most Beneficial - Tax - Rank";
                 "Q2 - Ranks - Neutral - Tax - Rank"];
     rows := [[Num 1; Num 1]] |}.

(** Two respondents: the first puts Course X under Most Beneficial and
    Course Y under Neutral, the second Course Y under Most Beneficial and
    Course X under Least Beneficial. *)
Definition two_respondents : DataFrame :=
  {| columns := ["Response ID";
                 "Q1 - Ranks - Most Beneficial - Course X - Rank";
                 "Q1 - Ranks - Neutral - Course Y - Rank";
                 "Q1 - Ranks - Most Beneficial - Course Y - Rank";
                 "Q1 - Ranks - Least Beneficial - Course X - Rank";
                 "Comments"];
     rows := [[Num 7; Num 1; Num 1; NaN; NaN; NaN];
              [Num 8; NaN; NaN; Num 1; Num 1; NaN]] |}.

(** Two worlds with the same input file: an empty directory, and one that
    holds the report of an earlier run. *)
Definition fresh_world : world :=
  {| files := fun p => if String.eqb p "data/data.xlsx"
                       then Some (Workbook two_respondents) else None;
     dirs := ["data"];
     trace := [] |}.

Definition used_world : world :=
  {| files := fun p => if String.eqb p "data/data.xlsx"
                       then Some (Workbook two_respondents)
                       else if String.eqb p "outputs/ranking.txt"
                            then Some (Text "old report") else None;
     dirs := ["data"; "outputs"];
     trace := [Printed "earlier run"] |}.

(** A table whose only ranking column is empty. *)
Definition all_missing : DataFrame :=
  {| columns := ["Response ID"; "Q1 - Ranks - Neutral - Tax - Rank"];
     rows := [[Num 11; NaN]; [Num 12; NaN]] |}.

(** The pattern from the separator after the category onwards. *)
Definition after_category : Re.regex :=
  Re.Seq (Re.Lit " - ") (Re.Seq (Re.Group 2 Re.DotStar) (Re.Lit " - Rank")).

(** What the pattern asks of the text that follows its leading run of any
    characters. *)
Definition after_prefix (s1 : string) : option Re.groups :=
  match Re.lit " - Ranks - " s1 with
  | Some s2 =>
      match
        match Re.lit Most_Beneficial s2 with
        | Some s3 => Re.run after_category s3 [(1, Re.consumed s2 s3)] (fun _ g => Some g)
        | None => None
        end
      with
      | Some g => Some g
      | None =>
          match
            match Re.lit Neutral s2 with
            | Some s3 => Re.run after_category s3 [(1, Re.consumed s2 s3)] (fun _ g => Some g)
            | None => None
            end
          with
          | Some g => Some g
          | None =>
              match Re.lit Least_Beneficial s2 with
              | Some s3 => Re.run after_category s3 [(1, Re.consumed s2 s3)] (fun _ g => Some g)
              | None => None
              end
          end
      end
  | None => None
  end.

(** The header that names a category and a course after the prefix [p]. *)
Definition make_header (p cat c : string) : string :=
  (p ++ " - Ranks - " ++ cat ++ " - " ++ c ++ " - Rank")%string.

(** One of the three category names, as the chain of comparisons in
    [calculate_rankings] tests it. *)
Definition is_categoryb (cat : string) : bool :=
  String.eqb cat "Most Beneficial" || String.eqb cat "Neutral"
  || String.eqb cat "Least Beneficial".

(** An entry of [col_map] that a row gets a record for: its cell is not
    missing and its category is one of the three. *)
Definition ranked (cols : list string) (row : Series)
           (item : string * (string * string)) : bool :=
  present cols row item && is_categoryb (fst (snd item)).

Definition ranked_entries (cols : list string) (col_map : col_map_t) (row : Series) : nat :=
  List.length (filter (ranked cols row) col_map).

(** The number of entries of a bucket with a raw rank below that of [e]. *)
Definition smaller (bucket : list entry) (e : entry) : nat :=
  List.length (filter (fun x : entry => (snd x <? snd e)%Z) bucket).

(** The records of a bucket when each entry is ranked by counting: one,
    plus the [offset] taken by the buckets before it, plus the number of
    entries of the bucket with a smaller raw rank. *)
Definition placed (student_id : value) (offset : nat) (bucket : list entry) : list record :=
  map (fun e : entry =>
         {| Student := student_id; Course := fst e;
            Global_Rank := 1 + offset + smaller bucket e |})
      (sort_by_rank bucket).


(** One respondent with two Most Beneficial entries, ranked 2 and 1, and a
    Neutral entry. *)
Definition three_courses : DataFrame :=
  {| columns := ["Q - Ranks - Most Beneficial - Tax - Rank";
                 "Q - Ranks - Most Beneficial - Audit - Rank";
                 "Q - Ranks - Neutral - Law - Rank"];
     rows := [[Num 2; Num 1; Num 1]] |}.

(** What a record says about a course, and what a row of the summary says
    besides the standard deviation. *)
Definition course_rank (r : record) : string * nat := (Course r, Global_Rank r).

Definition course_mean_count (s : summary) : string * Q * nat := (course s, mean s, count s).

(** A cell whose number, if it has one, is replaced by its image under [f]. *)
Definition rescale (f : Z -> Z) (v : value) : value :=
  match v with
  | NaN => NaN
  | Num z => Num (f z)
  end.

(** A bucket entry whose raw rank is replaced by its image under [f]. *)
Definition rescale_entry (f : Z -> Z) (e : entry) : entry := (fst e, f (snd e)).

(** * Properties *)

(** ** The matcher *)

Section MatcherFacts.

Local Open Scope string_scope.

Lemma append_assoc (a b c : string) : (a ++ b) ++ c = a ++ (b ++ c).
Proof. induction a as [|x a IH]; simpl; [reflexivity | now rewrite IH]. Qed.

Lemma append_length (a b : string) :
  String.length (a ++ b) = String.length a + String.length b.
Proof. induction a as [|x a IH]; simpl; [reflexivity | now rewrite IH]. Qed.

Lemma append_nil_r (a : string) : a ++ "" = a.
Proof. induction a as [|x a IH]; simpl; [reflexivity | now rewrite IH]. Qed.

Lemma lit_Some (p s s' : string) : Re.lit p s = Some s' <-> s = p ++ s'.
Proof.
  revert s; induction p as [|a p IH]; intros s; simpl.
  - split; [now intros [= ->] | now intros ->].
  - destruct s as [|b s]; [split; discriminate|].
    destruct (Ascii.eqb_spec a b) as [->|Hne].
    + rewrite IH. split; [now intros -> | now intros [= ->]].
    + split; [discriminate | intros [= E _]; now elim Hne].
Qed.

Lemma lit_app (p s : string) : Re.lit p (p ++ s) = Some s.
Proof. now apply lit_Some. Qed.

Lemma consumed_app (a b : string) : Re.consumed (a ++ b) b = a.
Proof.
  unfold Re.consumed. rewrite append_length.
  replace (String.length a + String.length b - String.length b)
    with (String.length a) by lia.
  induction a as [|x a IH]; simpl.
  - now destruct b.
  - now rewrite IH.
Qed.

Lemma one_line_app (a b : string) :
  one_line (a ++ b) = one_line a && one_line b.
Proof.
  induction a as [|x a IH]; simpl; [reflexivity|].
  now rewrite IH, andb_assoc.
Qed.

(** What a successful greedy [.*] has done: it covers a text [a] on one
    line, the continuation accepts the rest, and it rejected the rest
    after every longer cover. *)
Lemma dotstar_sound {A : Type} (k : string -> option A) (s : string) (x : A) :
  Re.dotstar s k = Some x ->
  exists a b, s = a ++ b /\ one_line a = true /\ k b = Some x /\
    forall a' b', s = a' ++ b' -> one_line a' = true ->
                  String.length a < String.length a' -> k b' = None.
Proof.
  induction s as [|c s IH]; simpl; intros H.
  - exists "", "". repeat split; auto.
    intros [|? ?] b' E _ Hl; simpl in *; [lia | discriminate].
  - destruct (Re.is_newline c) eqn:Hc.
    + exists "", (String c s). repeat split; auto.
      intros [|c' a'] b' E Hone Hl; simpl in *; [lia|].
      injection E as -> _. now rewrite Hc in Hone.
    + destruct (Re.dotstar s k) as [y|] eqn:Hd.
      * injection H as ->. destruct (IH eq_refl) as (a & b & -> & Ha & Hk & Hmax).
        exists (String c a), b. simpl. rewrite Hc. repeat split; auto.
        intros [|c' a'] b' E Hone Hl; simpl in *; [lia|].
        injection E as -> E. apply andb_true_iff in Hone as [_ Hone].
        apply (Hmax a' b' E Hone). lia.
      * exists "", (String c s). repeat split; auto.
        intros [|c' a'] b' E Hone Hl; simpl in *; [lia|].
        injection E as -> E. apply andb_true_iff in Hone as [_ Hone].
        clear Hl H. subst s. revert Hd Hone. clear.
        induction a' as [|d a' IH]; simpl.
        -- destruct b'; simpl; [auto|].
           destruct (Re.is_newline a); [auto|].
           destruct (Re.dotstar b' k); [discriminate | auto].
        -- intros Hd Hone. apply andb_true_iff in Hone as [Hd' Hone].
           apply negb_true_iff in Hd'. rewrite Hd' in Hd.
           destruct (Re.dotstar (a' ++ b') k) eqn:E; [discriminate|].
           now apply IH.
Qed.

(** A greedy [.*] succeeds as soon as some cover on one line leaves a
    rest that the continuation accepts. *)
Lemma dotstar_complete {A : Type} (k : string -> option A) (a b : string) (x : A) :
  one_line a = true -> k b = Some x -> Re.dotstar (a ++ b) k <> None.
Proof.
  induction a as [|c a IH]; simpl; intros Ha Hk.
  - destruct b as [|c b]; simpl; [congruence|].
    destruct (Re.is_newline c); [congruence|].
    destruct (Re.dotstar b k); congruence.
  - apply andb_true_iff in Ha as [Hc Ha]. apply negb_true_iff in Hc.
    rewrite Hc. specialize (IH Ha Hk).
    destruct (Re.dotstar (a ++ b) k); congruence.
Qed.

Lemma search_sound (r : Re.regex) (s : string) (g : Re.groups) :
  Re.search r s = Some g ->
  exists p t, s = p ++ t /\ Re.match_here r t = Some g.
Proof.
  induction s as [|c s IH]; simpl.
  - destruct (Re.match_here r "") eqn:E; [|discriminate].
    intros [= ->]. now exists "", "".
  - destruct (Re.match_here r (String c s)) eqn:E.
    + intros [= ->]. now exists "", (String c s).
    + intros H. destruct (IH H) as (p & t & -> & Ht).
      now exists (String c p), t.
Qed.

Lemma search_complete (r : Re.regex) (p t : string) :
  Re.match_here r t <> None -> Re.search r (p ++ t) <> None.
Proof.
  intros Ht. induction p as [|c p IH]; simpl.
  - destruct t; simpl; destruct (Re.match_here r _); congruence.
  - destruct (Re.match_here r (String c (p ++ t))); congruence.
Qed.

End MatcherFacts.

(** ** The header pattern *)

Section HeaderFacts.

Local Open Scope string_scope.

Lemma after_category_sound (s : string) (g0 g : Re.groups) :
  Re.run after_category s g0 (fun _ g => Some g) = Some g ->
  exists c u, s = " - " ++ c ++ " - Rank" ++ u /\ one_line c = true /\
    g = (2, c) :: g0 /\
    forall c' u', c ++ " - Rank" ++ u = c' ++ " - Rank" ++ u' ->
                  one_line c' = true -> String.length c' <= String.length c.
Proof.
  unfold after_category. cbn [Re.run].
  destruct (Re.lit " - " s) as [s1|] eqn:E1; [|discriminate].
  apply lit_Some in E1. subst s. intros H.
  apply dotstar_sound in H as (c & b & -> & Hc & Hk & Hmax).
  destruct (Re.lit " - Rank" b) as [u|] eqn:E2; [|discriminate].
  apply lit_Some in E2. subst b. injection Hk as <-.
  rewrite consumed_app.
  exists c, u. repeat split; auto.
  intros c' u' E Hc'. destruct (le_lt_dec (String.length c') (String.length c)) as [|Hlt]; [assumption|].
  specialize (Hmax c' _ E Hc' Hlt). cbv beta in Hmax.
  rewrite lit_app in Hmax. discriminate.
Qed.

Lemma after_category_complete (c u : string) (g0 : Re.groups) :
  one_line c = true ->
  Re.run after_category (" - " ++ c ++ " - Rank" ++ u) g0 (fun _ g => Some g) <> None.
Proof.
  intros Hc. unfold after_category. cbn [Re.run].
  rewrite lit_app.
  eapply dotstar_complete; [exact Hc|].
  rewrite lit_app. reflexivity.
Qed.

Lemma pattern_run (s : string) :
  Re.match_here pattern s =
  Re.dotstar s (fun s1 =>
    match Re.lit " - Ranks - " s1 with
    | Some s2 =>
        match
          match Re.lit Most_Beneficial s2 with
          | Some s3 => Re.run after_category s3 [(1, Re.consumed s2 s3)] (fun _ g => Some g)
          | None => None
          end
        with
        | Some g => Some g
        | None =>
            match
              match Re.lit Neutral s2 with
              | Some s3 => Re.run after_category s3 [(1, Re.consumed s2 s3)] (fun _ g => Some g)
              | None => None
              end
            with
            | Some g => Some g
            | None =>
                match Re.lit Least_Beneficial s2 with
                | Some s3 => Re.run after_category s3 [(1, Re.consumed s2 s3)] (fun _ g => Some g)
                | None => None
                end
            end
        end
    | None => None
    end).
Proof. reflexivity. Qed.

Lemma match_here_sound (s : string) (g : Re.groups) :
  Re.match_here pattern s = Some g ->
  exists a cat c u,
    ranking_header s a cat c u /\ Re.group g 1 = cat /\ Re.group g 2 = c /\
    forall c' u', c ++ " - Rank" ++ u = c' ++ " - Rank" ++ u' ->
                  one_line c' = true -> String.length c' <= String.length c.
Proof.
  rewrite pattern_run. intros H.
  apply dotstar_sound in H as (a & b & -> & _ & Hk & _).
  destruct (Re.lit " - Ranks - " b) as [s2|] eqn:E1; [|discriminate].
  apply lit_Some in E1. subst b.
  assert (Hcat : exists cat s3, is_category cat /\ s2 = cat ++ s3 /\
            Re.run after_category s3 [(1, cat)] (fun _ g => Some g) = Some g).
  { destruct (Re.lit Most_Beneficial s2) as [s3|] eqn:E2.
    - apply lit_Some in E2. subst s2. rewrite consumed_app in Hk.
      destruct (Re.run after_category s3 _ _) as [g'|] eqn:E3.
      + injection Hk as ->. exists Most_Beneficial, s3. unfold is_category; auto.
      + exfalso. revert Hk. clear. simpl. discriminate.
    - destruct (Re.lit Neutral s2) as [s3|] eqn:E3.
      + apply lit_Some in E3. subst s2. rewrite consumed_app in Hk.
        destruct (Re.run after_category s3 _ _) as [g'|] eqn:E4.
        * injection Hk as ->. exists Neutral, s3. unfold is_category; auto.
        * exfalso. revert Hk. clear. simpl. discriminate.
      + destruct (Re.lit Least_Beneficial s2) as [s3|] eqn:E4; [|discriminate].
        apply lit_Some in E4. subst s2. rewrite consumed_app in Hk.
        exists Least_Beneficial, s3. unfold is_category; auto. }
  destruct Hcat as (cat & s3 & Hc & -> & Hrun).
  apply after_category_sound in Hrun as (c & u & -> & Hone & -> & Hmax).
  exists a, cat, c, u. unfold ranking_header. repeat split; auto.
Qed.

Lemma match_here_complete (cat c u : string) :
  is_category cat -> one_line c = true ->
  Re.match_here pattern (" - Ranks - " ++ cat ++ " - " ++ c ++ " - Rank" ++ u) <> None.
Proof.
  intros Hcat Hc. rewrite pattern_run.
  pose proof (after_category_complete c u [(1, cat)] Hc) as Hrun.
  destruct (Re.run after_category _ [(1, cat)] _) as [g|] eqn:E; [clear Hrun|congruence].
  apply (dotstar_complete _ "" _ g); [reflexivity|].
  change (Re.lit " - Ranks - " _) with (Some (cat ++ " - " ++ c ++ " - Rank" ++ u)).
  cbv iota.
  destruct Hcat as [->| [->| ->]].
  - rewrite lit_app, consumed_app, E. reflexivity.
  - change (Re.lit Most_Beneficial (Neutral ++ " - " ++ c ++ " - Rank" ++ u)) with (@None string).
    cbv iota. rewrite lit_app, consumed_app, E. reflexivity.
  - change (Re.lit Most_Beneficial (Least_Beneficial ++ " - " ++ c ++ " - Rank" ++ u)) with (@None string).
    change (Re.lit Neutral (Least_Beneficial ++ " - " ++ c ++ " - Rank" ++ u)) with (@None string).
    cbv iota. rewrite lit_app, consumed_app, E. reflexivity.
Qed.

Lemma parse_header_sound (h cat course : string) :
  parse_header h = Some (cat, course) ->
  exists before c after,
    ranking_header h before cat c after /\ course = strip c /\
    forall c' after', c ++ " - Rank" ++ after = c' ++ " - Rank" ++ after' ->
                      one_line c' = true -> String.length c' <= String.length c.
Proof.
  unfold parse_header.
  destruct (Re.search pattern h) as [g|] eqn:E; [|discriminate].
  intros [= <- <-].
  apply search_sound in E as (p & t & -> & Ht).
  apply match_here_sound in Ht as (a & cat & c & u & (-> & Hcat & Hc) & <- & <- & Hmax).
  exists (p ++ a), (Re.group g 2), u. unfold ranking_header.
  rewrite append_assoc. repeat split; auto.
Qed.

Lemma parse_header_complete (h before cat c after : string) :
  ranking_header h before cat c after -> parse_header h <> None.
Proof.
  intros (-> & Hcat & Hc). unfold parse_header.
  pose proof (search_complete pattern before _ (match_here_complete cat c after Hcat Hc)) as H.
  destruct (Re.search pattern _); congruence.
Qed.

Lemma parse_header_category (h cat course : string) :
  parse_header h = Some (cat, course) -> is_category cat.
Proof.
  intros H. apply parse_header_sound in H as (? & ? & ? & (_ & Hc & _) & _). exact Hc.
Qed.

End HeaderFacts.

(** ** Buckets, sorting and numbering *)

Section FlattenerFacts.

Variable cols : list string.
Variable row : Series.

Lemma bucket_step_spec (b : buckets) (item : string * (string * string)) :
  most_beneficial (bucket_step cols row b item)
    = most_beneficial b ++ entries_of cols row "Most Beneficial" [item]
  /\ neutral (bucket_step cols row b item)
    = neutral b ++ entries_of cols row "Neutral" [item]
  /\ least_beneficial (bucket_step cols row b item)
    = least_beneficial b ++ entries_of cols row "Least Beneficial" [item].
Proof.
  destruct item as [col [category crs]]. unfold bucket_step, entries_of.
  cbn [flat_map fst snd]. rewrite !app_nil_r.
  destruct (getitem cols row col) as [|v]; [now rewrite !app_nil_r|].
  destruct (String.eqb_spec category "Most Beneficial") as [->|H1];
    [cbn; now rewrite !app_nil_r|].
  destruct (String.eqb_spec category "Neutral") as [->|H2];
    [cbn; now rewrite !app_nil_r|].
  destruct (String.eqb_spec category "Least Beneficial") as [->|H3];
    cbn; now rewrite !app_nil_r.
Qed.

Lemma entries_of_cons (cat : string) (item : string * (string * string)) (cm : col_map_t) :
  entries_of cols row cat (item :: cm)
    = entries_of cols row cat [item] ++ entries_of cols row cat cm.
Proof. unfold entries_of. cbn [flat_map]. now rewrite app_nil_r. Qed.

Lemma fold_buckets (cm : col_map_t) (b : buckets) :
  let b' := fold_left (bucket_step cols row) cm b in
  most_beneficial b' = most_beneficial b ++ entries_of cols row "Most Beneficial" cm
  /\ neutral b' = neutral b ++ entries_of cols row "Neutral" cm
  /\ least_beneficial b' = least_beneficial b ++ entries_of cols row "Least Beneficial" cm.
Proof.
  revert b. induction cm as [|item cm IH]; intros b; cbn [fold_left].
  - unfold entries_of. cbn. now rewrite !app_nil_r.
  - destruct (IH (bucket_step cols row b item)) as (E1 & E2 & E3).
    destruct (bucket_step_spec b item) as (S1 & S2 & S3).
    cbv zeta. rewrite E1, E2, E3, S1, S2, S3.
    rewrite !(entries_of_cons _ item cm), !app_assoc. auto.
Qed.

Lemma fill_buckets_spec (cm : col_map_t) :
  most_beneficial (fill_buckets cols row cm) = entries_of cols row Most_Beneficial cm
  /\ neutral (fill_buckets cols row cm) = entries_of cols row Neutral cm
  /\ least_beneficial (fill_buckets cols row cm) = entries_of cols row Least_Beneficial cm.
Proof. exact (fold_buckets cm no_buckets). Qed.

(** With categories from the pattern, every non-missing entry lands in
    exactly one bucket. *)
Lemma buckets_cover (cm : col_map_t) :
  Forall (fun item => is_category (fst (snd item))) cm ->
  List.length (entries_of cols row Most_Beneficial cm)
  + List.length (entries_of cols row Neutral cm)
  + List.length (entries_of cols row Least_Beneficial cm)
  = non_missing cols cm row.
Proof.
  unfold non_missing. induction 1 as [|item cm Hc _ IH]; [reflexivity|].
  rewrite !(entries_of_cons _ item cm), !length_app.
  cbn [filter]. unfold present at 1.
  unfold entries_of at 1 3 5. cbn [flat_map]. rewrite !app_nil_r.
  destruct (getitem cols row (fst item)) as [|v]; cbn [notna].
  - cbn [List.length]. lia.
  - cbn [List.length]. rewrite <- IH.
    destruct Hc as [->| [->| ->]]; cbn; lia.
Qed.

End FlattenerFacts.

Section SortFacts.

Lemma insert_perm (x : entry) (l : list entry) : Permutation (x :: l) (insert x l).
Proof.
  induction l as [|y l IH]; cbn; [reflexivity|].
  destruct (snd y <? snd x)%Z; [|reflexivity].
  rewrite perm_swap. now constructor.
Qed.

Lemma sort_by_rank_perm (l : list entry) : Permutation l (sort_by_rank l).
Proof.
  induction l as [|x l IH]; cbn; [constructor|].
  rewrite <- insert_perm. now constructor.
Qed.

Lemma sort_by_rank_length (l : list entry) :
  List.length (sort_by_rank l) = List.length l.
Proof. symmetry. apply Permutation_length, sort_by_rank_perm. Qed.

Lemma insert_sorted (x : entry) (l : list entry) :
  StronglySorted by_rank l -> StronglySorted by_rank (insert x l).
Proof.
  induction 1 as [|y l Hs IH Hy]; cbn.
  - repeat constructor.
  - destruct (Z.ltb_spec (snd y) (snd x)) as [Hlt|Hge].
    + constructor; [assumption|].
      rewrite <- insert_perm. constructor; [unfold by_rank; lia | assumption].
    + constructor; [now constructor|].
      constructor; [exact Hge|].
      eapply Forall_impl; [|exact Hy]. unfold by_rank. intros; lia.
Qed.

Lemma sort_by_rank_sorted (l : list entry) : StronglySorted by_rank (sort_by_rank l).
Proof.
  induction l as [|x l IH]; cbn; [constructor | now apply insert_sorted].
Qed.

(** Stability: the entries of one raw rank pass through in their order. *)
Lemma insert_stable (v : Z) (x : entry) (l : list entry) :
  filter (with_rank v) (insert x l) = filter (with_rank v) (x :: l).
Proof.
  induction l as [|y l IH]; [reflexivity|]. cbn [insert].
  destruct (Z.ltb_spec (snd y) (snd x)) as [Hlt|Hge]; [|reflexivity].
  cbn [filter] in *. rewrite IH. unfold with_rank.
  destruct (Z.eqb_spec (snd x) v), (Z.eqb_spec (snd y) v); try reflexivity. lia.
Qed.

Lemma sort_by_rank_stable (v : Z) (l : list entry) :
  filter (with_rank v) (sort_by_rank l) = filter (with_rank v) l.
Proof.
  induction l as [|x l IH]; [reflexivity|].
  cbn [sort_by_rank fold_right]. rewrite insert_stable.
  cbn [filter]. fold (sort_by_rank l). now rewrite IH.
Qed.

End SortFacts.

Section EmitFacts.

Variable student_id : value.

Lemma emit_numbered (l : list entry) (records : list record) (n : nat) :
  emit student_id l (records, n)
    = (records ++ numbered student_id n l, n + List.length l).
Proof.
  revert records n. induction l as [|e l IH]; intros records n; cbn.
  - now rewrite app_nil_r, Nat.add_0_r.
  - unfold emit in IH. rewrite IH, <- app_assoc. cbn.
    f_equal; [now rewrite Nat.add_1_r | lia].
Qed.

Lemma numbered_rank (l : list entry) (n : nat) :
  map Global_Rank (numbered student_id n l) = seq n (List.length l).
Proof.
  revert n. induction l as [|e l IH]; intros n; cbn; [reflexivity | now rewrite IH].
Qed.

Lemma numbered_course (l : list entry) (n : nat) :
  map Course (numbered student_id n l) = map fst l.
Proof.
  revert n. induction l as [|e l IH]; intros n; cbn; [reflexivity | now rewrite IH].
Qed.

Lemma numbered_student (l : list entry) (n : nat) :
  Forall (fun r => Student r = student_id) (numbered student_id n l).
Proof.
  revert n. induction l as [|e l IH]; intros n; cbn; constructor; auto.
Qed.

Lemma numbered_length (l : list entry) (n : nat) :
  List.length (numbered student_id n l) = List.length l.
Proof.
  revert n. induction l as [|e l IH]; intros n; cbn; [reflexivity | now rewrite IH].
Qed.

Lemma numbered_bounds (l : list entry) (n : nat) (r : record) :
  In r (numbered student_id n l) -> n <= Global_Rank r < n + List.length l.
Proof.
  intros H. apply (in_map Global_Rank) in H.
  rewrite numbered_rank in H. apply in_seq in H. exact H.
Qed.

Lemma numbered_ranked (bucket : list entry) (n : nat) :
  ranked_from bucket n (numbered student_id n (sort_by_rank bucket)).
Proof.
  exists (sort_by_rank bucket). repeat split.
  - apply sort_by_rank_perm.
  - apply sort_by_rank_sorted.
  - intros v. apply sort_by_rank_stable.
  - apply numbered_course.
  - apply numbered_rank.
Qed.

End EmitFacts.

Section RowFacts.

Variable cols : list string.
Variable col_map : col_map_t.

(** The three parts of what a row contributes. *)
Lemma row_step_parts (records : list record) (idx : nat) (row : Series) :
  let sid := student_of cols idx row in
  let mb := sort_by_rank (entries_of cols row Most_Beneficial col_map) in
  let ne := sort_by_rank (entries_of cols row Neutral col_map) in
  let lb := sort_by_rank (entries_of cols row Least_Beneficial col_map) in
  row_step cols col_map records idx row
    = records ++ numbered sid 1 mb
              ++ numbered sid (1 + List.length mb) ne
              ++ numbered sid (1 + List.length mb + List.length ne) lb.
Proof.
  cbv zeta. unfold row_step.
  destruct (fill_buckets_spec cols row col_map) as (-> & -> & ->).
  rewrite !emit_numbered. cbn [fst]. now rewrite <- !app_assoc.
Qed.

Lemma row_records_parts (idx : nat) (row : Series) :
  let sid := student_of cols idx row in
  let mb := sort_by_rank (entries_of cols row Most_Beneficial col_map) in
  let ne := sort_by_rank (entries_of cols row Neutral col_map) in
  let lb := sort_by_rank (entries_of cols row Least_Beneficial col_map) in
  row_records cols col_map idx row
    = numbered sid 1 mb
      ++ numbered sid (1 + List.length mb) ne
      ++ numbered sid (1 + List.length mb + List.length ne) lb.
Proof. exact (row_step_parts [] idx row). Qed.

Lemma row_step_records (records : list record) (idx : nat) (row : Series) :
  row_step cols col_map records idx row = records ++ row_records cols col_map idx row.
Proof.
  pose proof (row_step_parts records idx row) as H. cbv zeta in H. rewrite H.
  pose proof (row_records_parts idx row) as H'. cbv zeta in H'. now rewrite H'.
Qed.

Lemma iterrows_records (rs : list Series) (records : list record) (idx : nat) :
  iterrows cols col_map records idx rs
    = records ++ flat_map (fun ir => row_records cols col_map (fst ir) (snd ir))
                          (enumerate idx rs).
Proof.
  revert records idx. induction rs as [|row rs IH]; intros records idx; cbn.
  - now rewrite app_nil_r.
  - now rewrite IH, row_step_records, <- app_assoc.
Qed.

Lemma row_records_ranks (idx : nat) (row : Series) :
  map Global_Rank (row_records cols col_map idx row)
    = seq 1 (List.length (entries_of cols row Most_Beneficial col_map)
             + List.length (entries_of cols row Neutral col_map)
             + List.length (entries_of cols row Least_Beneficial col_map)).
Proof.
  pose proof (row_records_parts idx row) as H. cbv zeta in H. rewrite H.
  rewrite !map_app, !numbered_rank, !sort_by_rank_length.
  rewrite <- !seq_app. f_equal. lia.
Qed.

End RowFacts.

(** The long-form table is the rows' contributions, one after the other,
    each row under its position. *)
Lemma calculate_rankings_rows (df : DataFrame) (col_map : col_map_t) :
  calculate_rankings df col_map
    = flat_map (fun ir => row_records (columns df) col_map (fst ir) (snd ir))
               (enumerate 0 (rows df)).
Proof. unfold calculate_rankings. now rewrite iterrows_records. Qed.

(** ** The column map *)

Section ColumnMapFacts.

Lemma dict_set_In {V : Type} (d : list (string * V)) (k : string) (v : V) (kv : string * V) :
  In kv (dict_set d k v) -> kv = (k, v) \/ In kv d.
Proof.
  induction d as [|[k' v'] d IH]; cbn.
  - intros [<-|[]]. now left.
  - destruct (String.eqb k' k); cbn; intuition.
Qed.

Lemma dict_set_new {V : Type} (d : list (string * V)) (k : string) (v : V) :
  In (k, v) (dict_set d k v).
Proof.
  induction d as [|[k' v'] d IH]; cbn; [now left|].
  destruct (String.eqb k' k); cbn; auto.
Qed.

Lemma dict_set_old {V : Type} (d : list (string * V)) (k : string) (v : V) (kv : string * V) :
  In kv d -> fst kv <> k -> In kv (dict_set d k v).
Proof.
  intros Hin Hne. induction d as [|[k' v'] d IH]; [contradiction|]. cbn.
  destruct Hin as [<-|Hin].
  - cbn in Hne. destruct (String.eqb_spec k' k); [contradiction | now left].
  - destruct (String.eqb k' k); cbn; auto.
Qed.

(** The keys of the dictionary stay distinct. *)
Lemma dict_set_keys {V : Type} (d : list (string * V)) (k : string) (v : V) :
  NoDup (map fst d) -> NoDup (map fst (dict_set d k v)).
Proof.
  induction d as [|[k' v'] d IH]; cbn; intros H.
  - repeat constructor. auto.
  - inversion H as [|? ? Hnotin Hnd]; subst.
    destruct (String.eqb_spec k' k) as [->|Hne]; cbn; [now constructor|].
    constructor; [|auto].
    intros Hin. apply in_map_iff in Hin as ([k0 v0] & E & Hin). cbn in E. subst k0.
    apply dict_set_In in Hin as [[= -> _]|Hin]; [contradiction|].
    apply Hnotin. now apply (in_map fst) in Hin.
Qed.

Lemma parse_columns_step_agrees (d : col_map_t) (col : string) :
  agrees d -> agrees (parse_columns_step d col).
Proof.
  unfold parse_columns_step, agrees. intros Hd c m Hin.
  destruct (parse_header col) as [meta|] eqn:E; [|auto].
  apply dict_set_In in Hin as [[= -> ->]|Hin]; auto.
Qed.

Lemma parse_columns_step_keeps (d : col_map_t) (col : string) (kv : string * (string * string)) :
  agrees d -> In kv d -> In kv (parse_columns_step d col).
Proof.
  unfold parse_columns_step. intros Hd Hin.
  destruct (parse_header col) as [meta|] eqn:E; [|auto].
  destruct kv as [c m]. destruct (String.eqb_spec c col) as [->|Hne].
  - rewrite (Hd _ _ Hin) in E. injection E as ->. apply dict_set_new.
  - now apply dict_set_old.
Qed.

Lemma fold_parse_columns (cs : list string) (d : col_map_t) :
  agrees d ->
  agrees (fold_left parse_columns_step cs d)
  /\ (forall kv, In kv d -> In kv (fold_left parse_columns_step cs d))
  /\ (forall col meta, In col cs -> parse_header col = Some meta ->
                       In (col, meta) (fold_left parse_columns_step cs d))
  /\ (forall col meta, In (col, meta) (fold_left parse_columns_step cs d) ->
                       In (col, meta) d \/ In col cs)
  /\ (NoDup (map fst d) -> NoDup (map fst (fold_left parse_columns_step cs d))).
Proof.
  revert d. induction cs as [|c cs IH]; intros d Hd; cbn [fold_left].
  - repeat split; auto. intros ? ? [].
  - destruct (IH _ (parse_columns_step_agrees d c Hd)) as (A & K & N & O & U).
    repeat split.
    + exact A.
    + intros kv Hin. apply K. now apply parse_columns_step_keeps.
    + intros col meta [->|Hin] Hp; [|now apply N].
      apply K. unfold parse_columns_step. rewrite Hp. apply dict_set_new.
    + intros col meta Hin. apply O in Hin as [Hin|Hin]; [|right; now right].
      unfold parse_columns_step in Hin.
      destruct (parse_header c) as [m|]; [|now left].
      apply dict_set_In in Hin as [[= -> _]|Hin]; [right; now left | now left].
    + intros Hnd. apply U. unfold parse_columns_step.
      destruct (parse_header c); [now apply dict_set_keys | assumption].
Qed.

(** [col_map] holds exactly the columns whose header the pattern finds,
    each once, with what [parse_header] reads from the header. *)
Lemma parse_columns_In (df : DataFrame) (col : string) (meta : string * string) :
  In (col, meta) (parse_columns df) <-> In col (columns df) /\ parse_header col = Some meta.
Proof.
  unfold parse_columns.
  assert (H0 : agrees []) by (intros ? ? []).
  destruct (fold_parse_columns (columns df) [] H0) as (A & _ & N & O & _).
  split.
  - intros Hin. split; [|now apply A].
    apply O in Hin as [[]|Hin]; exact Hin.
  - intros [Hin Hp]. now apply N.
Qed.

Lemma parse_columns_keys (df : DataFrame) : NoDup (map fst (parse_columns df)).
Proof.
  unfold parse_columns.
  assert (H0 : agrees []) by (intros ? ? []).
  destruct (fold_parse_columns (columns df) [] H0) as (_ & _ & _ & _ & U).
  apply U. constructor.
Qed.

Lemma parse_columns_categories (df : DataFrame) :
  Forall (fun item : string * (string * string) => is_category (fst (snd item)))
         (parse_columns df).
Proof.
  apply Forall_forall. intros [col [cat crs]] Hin.
  apply parse_columns_In in Hin as [_ Hp]. cbn.
  eapply parse_header_category, Hp.
Qed.

Lemma dict_set_fresh {V : Type} (d : list (string * V)) (k : string) (v : V) :
  ~ In k (map fst d) -> dict_set d k v = d ++ [(k, v)].
Proof.
  induction d as [|[k' v'] d IH]; cbn; intros H; [reflexivity|].
  destruct (String.eqb_spec k' k) as [->|Hne]; [tauto|].
  rewrite IH; [reflexivity | tauto].
Qed.

Lemma fold_parse_columns_order (cs : list string) (d : col_map_t) :
  NoDup cs -> (forall c, In c cs -> ~ In c (map fst d)) ->
  fold_left parse_columns_step cs d = d ++ ranking_columns cs.
Proof.
  revert d. induction cs as [|c cs IH]; intros d Hnd Hfresh; cbn [fold_left].
  - unfold ranking_columns. cbn. now rewrite app_nil_r.
  - inversion Hnd as [|? ? Hc Hnd']; subst.
    unfold ranking_columns. cbn [flat_map]. fold (ranking_columns cs).
    unfold parse_columns_step at 2.
    destruct (parse_header c) as [meta|].
    + rewrite dict_set_fresh by (apply Hfresh; now left).
      rewrite IH; [now rewrite <- app_assoc | assumption |].
      intros c' Hin. rewrite map_app, in_app_iff. cbn.
      intros [H|[->|[]]]; [|contradiction].
      exact (Hfresh c' (or_intror Hin) H).
    + cbn [app]. apply IH; [assumption|].
      intros c' Hin. apply Hfresh. now right.
Qed.

(** With distinct labels, the dictionary lists the ranking columns in the
    order of the table. *)
Lemma parse_columns_order (df : DataFrame) :
  NoDup (columns df) -> parse_columns df = ranking_columns (columns df).
Proof.
  intros H. unfold parse_columns.
  rewrite fold_parse_columns_order; [reflexivity | assumption | intros ? _ []].
Qed.

End ColumnMapFacts.

Section CountFacts.

Variable c : string.

Lemma filter_length_perm {A : Type} (f : A -> bool) (l l' : list A) :
  Permutation l l' -> List.length (filter f l) = List.length (filter f l').
Proof.
  induction 1 as [|x l l' _ IH|x y l|l l' l'' _ IH1 _ IH2]; cbn.
  - reflexivity.
  - destruct (f x); cbn; now rewrite IH.
  - destruct (f x), (f y); reflexivity.
  - now rewrite IH1.
Qed.

Lemma numbered_per_course (sid : value) (n : nat) (l : list entry) :
  List.length (filter (fun r => String.eqb (Course r) c) (numbered sid n l))
    = List.length (filter (fun e : entry => String.eqb (fst e) c) l).
Proof.
  revert n. induction l as [|e l IH]; intros n; cbn; [reflexivity|].
  destruct (String.eqb (fst e) c); cbn; now rewrite IH.
Qed.

Lemma entries_per_course (cols : list string) (row : Series) (cm : col_map_t) :
  Forall (fun item => is_category (fst (snd item))) cm ->
  List.length (filter (fun e : entry => String.eqb (fst e) c)
                      (entries_of cols row Most_Beneficial cm))
  + List.length (filter (fun e : entry => String.eqb (fst e) c)
                        (entries_of cols row Neutral cm))
  + List.length (filter (fun e : entry => String.eqb (fst e) c)
                        (entries_of cols row Least_Beneficial cm))
  = List.length (filter (fun item => present cols row item
                                     && String.eqb (snd (snd item)) c) cm).
Proof.
  induction 1 as [|item cm Hc _ IH]; [reflexivity|].
  rewrite !(entries_of_cons _ _ _ item cm), !filter_app, !length_app.
  cbn [filter]. unfold present at 1.
  unfold entries_of at 1 3 5. cbn [flat_map]. rewrite !app_nil_r.
  destruct (getitem cols row (fst item)) as [|v]; cbn [notna andb].
  - cbn. lia.
  - destruct item as [col [cat crs]]. cbn [fst snd] in *.
    destruct Hc as [->| [->| ->]]; destruct (String.eqb crs c) eqn:E;
      cbn in *; rewrite ?E; cbn; lia.
Qed.

Lemma records_per_course (cols : list string) (cm : col_map_t) (idx : nat) (row : Series) :
  Forall (fun item => is_category (fst (snd item))) cm ->
  List.length (filter (fun r => String.eqb (Course r) c) (row_records cols cm idx row))
    = List.length (filter (fun item => present cols row item
                                       && String.eqb (snd (snd item)) c) cm).
Proof.
  intros Hc. pose proof (row_records_parts cols cm idx row) as H. cbv zeta in H.
  rewrite H, !filter_app, !length_app, !numbered_per_course.
  rewrite <- !(filter_length_perm _ _ _ (sort_by_rank_perm _)).
  rewrite Nat.add_assoc. now apply entries_per_course.
Qed.

End CountFacts.

(** ** The rank flattener *)

(** C1. For every row, the global ranks that the flattener assigns are
    1, 2, ..., K in this order, where K is the number of ranking columns
    whose cell in the row is not missing: no rank twice, none left out.  A
    row with K = 0 contributes no record.  The long-form table is made of
    these contributions, row after row. *)
Theorem global_ranks_are_one_to_K (df : DataFrame) :
  let col_map := parse_columns df in
  calculate_rankings df col_map
    = flat_map (fun ir => row_records (columns df) col_map (fst ir) (snd ir))
               (enumerate 0 (rows df))
  /\ forall (idx : nat) (row : Series),
      let K := non_missing (columns df) col_map row in
      map Global_Rank (row_records (columns df) col_map idx row) = seq 1 K
      /\ NoDup (map Global_Rank (row_records (columns df) col_map idx row))
      /\ List.length (row_records (columns df) col_map idx row) = K
      /\ (K = 0 -> row_records (columns df) col_map idx row = []).
Proof.
  cbv zeta. split; [apply calculate_rankings_rows|].
  intros idx row.
  assert (E : map Global_Rank (row_records (columns df) (parse_columns df) idx row)
              = seq 1 (non_missing (columns df) (parse_columns df) row)).
  { rewrite row_records_ranks, buckets_cover; [reflexivity|].
    apply parse_columns_categories. }
  assert (L : List.length (row_records (columns df) (parse_columns df) idx row)
              = non_missing (columns df) (parse_columns df) row).
  { erewrite <- length_map, E. apply length_seq. }
  repeat split.
  - exact E.
  - rewrite E. apply seq_NoDup.
  - exact L.
  - intros K0. rewrite K0 in L. now apply length_zero_iff_nil.
Qed.

(** C2. The records of a row are those of its Most Beneficial entries, then
    those of its Neutral entries, then those of its Least Beneficial
    entries, and every global rank of an earlier part is strictly smaller
    than every global rank of a later part. *)
Theorem buckets_in_priority_order
        (cols : list string) (col_map : col_map_t) (idx : nat) (row : Series) :
  let b := fill_buckets cols row col_map in
  most_beneficial b = entries_of cols row Most_Beneficial col_map
  /\ neutral b = entries_of cols row Neutral col_map
  /\ least_beneficial b = entries_of cols row Least_Beneficial col_map
  /\ exists r_mb r_ne r_lb,
      row_records cols col_map idx row = r_mb ++ r_ne ++ r_lb
      /\ map Course r_mb = map fst (sort_by_rank (most_beneficial b))
      /\ map Course r_ne = map fst (sort_by_rank (neutral b))
      /\ map Course r_lb = map fst (sort_by_rank (least_beneficial b))
      /\ (forall x y, In x r_mb -> In y r_ne -> Global_Rank x < Global_Rank y)
      /\ (forall y z, In y r_ne -> In z r_lb -> Global_Rank y < Global_Rank z)
      /\ (forall x z, In x r_mb -> In z r_lb -> Global_Rank x < Global_Rank z).
Proof.
  cbv zeta.
  destruct (fill_buckets_spec cols row col_map) as (E1 & E2 & E3).
  rewrite E1, E2, E3. repeat split.
  pose proof (row_records_parts cols col_map idx row) as H. cbv zeta in H.
  eexists _, _, _. split; [exact H|].
  rewrite !numbered_course. repeat split.
  - intros x y Hx Hy. apply numbered_bounds in Hx, Hy. lia.
  - intros y z Hy Hz. apply numbered_bounds in Hy, Hz. lia.
  - intros x z Hx Hz. apply numbered_bounds in Hx, Hz. lia.
Qed.

(** C4. Each of the three buckets of a row holds the row's entries of its
    category in the order in which the columns are met, which for a table
    with distinct labels is the order of its ranking columns; the records of
    the bucket list these entries by ascending raw rank, entries of equal
    raw rank in the order they have in the bucket, under consecutive global
    ranks. *)
Theorem buckets_sorted_stably
        (df : DataFrame) (col_map : col_map_t) (idx : nat) (row : Series) :
  let cols := columns df in
  let b := fill_buckets cols row col_map in
  (NoDup cols -> parse_columns df = ranking_columns cols)
  /\ most_beneficial b = entries_of cols row Most_Beneficial col_map
  /\ neutral b = entries_of cols row Neutral col_map
  /\ least_beneficial b = entries_of cols row Least_Beneficial col_map
  /\ exists r_mb r_ne r_lb,
      row_records cols col_map idx row = r_mb ++ r_ne ++ r_lb
      /\ ranked_from (most_beneficial b) 1 r_mb
      /\ ranked_from (neutral b) (1 + List.length r_mb) r_ne
      /\ ranked_from (least_beneficial b) (1 + List.length r_mb + List.length r_ne) r_lb.
Proof.
  cbv zeta. split; [apply parse_columns_order|].
  destruct (fill_buckets_spec (columns df) row col_map) as (E1 & E2 & E3).
  rewrite E1, E2, E3. repeat split.
  pose proof (row_records_parts (columns df) col_map idx row) as H. cbv zeta in H.
  eexists _, _, _. split; [exact H|].
  rewrite !numbered_length. repeat split; apply numbered_ranked.
Qed.

(** C8. Every record of a row carries as [Student] the row's cell under
    [Response ID] when the table has that column, and otherwise the
    position of the row in the table. *)
Theorem student_is_response_id_or_position (df : DataFrame) (col_map : col_map_t) :
  calculate_rankings df col_map
    = flat_map (fun ir => row_records (columns df) col_map (fst ir) (snd ir))
               (enumerate 0 (rows df))
  /\ (forall i, map fst (enumerate i (rows df)) = seq i (List.length (rows df)))
  /\ forall (idx : nat) (row : Series),
      Forall (fun r => Student r = respondent_id (columns df) idx row)
             (row_records (columns df) col_map idx row).
Proof.
  split; [apply calculate_rankings_rows|]. split.
  - induction (rows df) as [|r rs IH]; intros i; cbn; [reflexivity | now rewrite IH].
  - intros idx row.
    pose proof (row_records_parts (columns df) col_map idx row) as H. cbv zeta in H.
    rewrite H. rewrite !Forall_app. repeat split; apply numbered_student.
Qed.

(** ** Grouping and the statistics of a group *)

Section AggregationFacts.

Lemma ascii_compare_trans (x y z : ascii) (c : comparison) :
  Ascii.compare x y = c -> Ascii.compare y z = c -> Ascii.compare x z = c.
Proof.
  unfold Ascii.compare. intros H1 H2. destruct c.
  - apply N.compare_eq_iff in H1, H2. apply N.compare_eq_iff. congruence.
  - apply N.compare_lt_iff in H1, H2. apply N.compare_lt_iff.
    eapply N.lt_trans; eassumption.
  - apply N.compare_gt_iff in H1, H2. apply N.compare_gt_iff.
    eapply N.lt_trans; eassumption.
Qed.

Lemma slt_trans (a b c : string) : slt a b -> slt b c -> slt a c.
Proof.
  unfold slt. revert b c.
  induction a as [|x a IH]; intros [|y b] [|z c]; cbn; try congruence.
  destruct (Ascii.compare x y) eqn:Exy; try discriminate;
    destruct (Ascii.compare y z) eqn:Eyz; try discriminate; intros H1 H2.
  - rewrite (ascii_compare_trans x y z Eq Exy Eyz). eauto.
  - apply Ascii.compare_eq_iff in Exy. subst y. now rewrite Eyz.
  - apply Ascii.compare_eq_iff in Eyz. subst z. now rewrite Exy.
  - now rewrite (ascii_compare_trans x y z Lt Exy Eyz).
Qed.

Lemma slt_irrefl (a : string) : ~ slt a a.
Proof.
  unfold slt. intros H. pose proof (String.compare_antisym a a) as E.
  rewrite H in E. discriminate.
Qed.

Lemma insert_key_In (k x : string) (ks : list string) :
  In x (insert_key k ks) <-> x = k \/ In x ks.
Proof.
  induction ks as [|k' ks IH]; cbn; [intuition|].
  destruct (String.compare k k') eqn:E; cbn.
  - apply String.compare_eq_iff in E. subst k'. intuition.
  - intuition.
  - rewrite IH. intuition.
Qed.

Lemma insert_key_sorted (k : string) (ks : list string) :
  StronglySorted slt ks -> StronglySorted slt (insert_key k ks).
Proof.
  induction 1 as [|k' ks Hs IH Hk']; cbn; [repeat constructor|].
  destruct (String.compare k k') eqn:E.
  - now constructor.
  - constructor; [now constructor|]. constructor; [exact E|].
    eapply Forall_impl; [|exact Hk']. intros c Hc. exact (slt_trans _ _ _ E Hc).
  - constructor; [exact IH|]. apply Forall_forall. intros x Hx.
    apply insert_key_In in Hx as [->|Hx].
    + unfold slt. rewrite String.compare_antisym, E. reflexivity.
    + rewrite Forall_forall in Hk'. auto.
Qed.

Lemma sorted_keys_NoDup (ks : list string) : StronglySorted slt ks -> NoDup ks.
Proof.
  induction 1 as [|k ks Hs IH Hk]; constructor; [|exact IH].
  intros Hin. rewrite Forall_forall in Hk. exact (slt_irrefl k (Hk k Hin)).
Qed.

Lemma group_keys_sorted (records : list record) : StronglySorted slt (group_keys records).
Proof.
  unfold group_keys. induction (map Course records) as [|c cs IH]; cbn;
    [constructor | now apply insert_key_sorted].
Qed.

Lemma group_keys_In (records : list record) (c : string) :
  In c (group_keys records) <-> In c (map Course records).
Proof.
  unfold group_keys. induction (map Course records) as [|c' cs IH]; cbn; [reflexivity|].
  rewrite insert_key_In, IH. intuition.
Qed.

Lemma group_nonempty (records : list record) (c : string) :
  In c (map Course records) -> group records c <> [].
Proof.
  unfold group. intros Hin. apply in_map_iff in Hin as (r & <- & Hin).
  intros E. apply map_eq_nil in E.
  assert (H : In r (filter (fun r0 => String.eqb (Course r0) (Course r)) records))
    by (apply filter_In; split; [assumption | apply String.eqb_refl]).
  rewrite E in H. exact H.
Qed.

End AggregationFacts.

Section StatisticsFacts.

Lemma agg_mean_total (xs : list nat) :
  xs <> [] ->
  (agg_mean xs * inject_Z (Z.of_nat (List.length xs)) == inject_Z (total xs))%Q.
Proof.
  intros Hne. unfold agg_mean.
  assert (Hn : ~ (inject_Z (Z.of_nat (List.length xs)) == 0)%Q).
  { destruct xs as [|x xs]; [contradiction|]. unfold Qeq. cbn. lia. }
  field. exact Hn.
Qed.

Lemma squared_deviations_nonneg (xs : list nat) : (0 <= squared_deviations xs)%Q.
Proof.
  unfold squared_deviations. generalize (agg_mean xs) as m. intros m.
  induction xs as [|x xs IH]; cbn [map fold_right]; [apply Qle_refl|].
  apply (Qplus_le_compat 0 _ 0 _); [|exact IH].
  generalize (inject_Z (Z.of_nat x) - m)%Q as d. intros [p q].
  unfold Qle, Qmult. cbn. nia.
Qed.

Lemma agg_var_nonneg (xs : list nat) : (0 <= agg_var xs)%Q.
Proof.
  unfold agg_var, Qdiv. apply Qmult_le_0_compat; [apply squared_deviations_nonneg|].
  apply Qinv_le_0_compat. unfold Qle. cbn. lia.
Qed.

Lemma agg_var_deviations (xs : list nat) :
  2 <= List.length xs ->
  (agg_var xs * inject_Z (Z.of_nat (List.length xs - 1)) == squared_deviations xs)%Q.
Proof.
  intros Hn. unfold agg_var.
  assert (Hd : ~ (inject_Z (Z.of_nat (List.length xs - 1)) == 0)%Q).
  { unfold Qeq. cbn. lia. }
  field. exact Hd.
Qed.

Lemma agg_std_small (xs : list nat) : List.length xs < 2 -> agg_std xs = None.
Proof.
  intros Hn. unfold agg_std. now apply Nat.ltb_lt in Hn as ->.
Qed.

Lemma agg_std_root (xs : list nat) :
  2 <= List.length xs ->
  exists sd : R, agg_std xs = Some sd /\ (0 <= sd)%R /\ (sd * sd)%R = Q2R (agg_var xs).
Proof.
  intros Hn. unfold agg_std.
  destruct (Nat.ltb_spec (List.length xs) 2) as [Hlt|_]; [lia|].
  exists (sqrt (Q2R (agg_var xs))). repeat split.
  - apply sqrt_pos.
  - apply sqrt_sqrt. rewrite <- RMicromega.Q2R_0. apply Qle_Rle, agg_var_nonneg.
Qed.

Lemma agg_std_123 : agg_std [1; 2; 3] = Some 1%R.
Proof.
  unfold agg_std. cbn [List.length Nat.ltb Nat.leb]. f_equal.
  rewrite (Qeq_eqR (agg_var [1; 2; 3]) 1%Q) by reflexivity.
  rewrite RMicromega.Q2R_1. apply sqrt_1.
Qed.

End StatisticsFacts.

(** ** Aggregation *)

(** C6. The summary table has one row per course that occurs in the
    records; the row of a course holds the mean, the count and the sample
    standard deviation of the global ranks of the records of that course.
    The mean times the count is the sum; the standard deviation is missing
    for fewer than two values and otherwise the non-negative root of the sum
    of the squared deviations over the count less one.  Records with the
    global ranks 1, 2, 3 give the mean 2, the count 3 and the standard
    deviation 1. *)
Theorem aggregation_per_course :
  (forall records : list record,
      map course (course_stats_of records) = group_keys records
      /\ NoDup (group_keys records)
      /\ (forall c, In c (group_keys records) <-> In c (map Course records))
      /\ Forall (fun s : summary =>
                   let xs := group records (course s) in
                   xs = map Global_Rank (filter (fun r => String.eqb (Course r) (course s)) records)
                   /\ xs <> []
                   /\ mean s = agg_mean xs
                   /\ count s = List.length xs
                   /\ std s = agg_std xs)
                (course_stats_of records))
  /\ (forall xs : list nat,
      (xs <> [] ->
       (agg_mean xs * inject_Z (Z.of_nat (List.length xs)) == inject_Z (total xs))%Q)
      /\ (List.length xs < 2 -> agg_std xs = None)
      /\ (2 <= List.length xs ->
          exists sd : R,
            agg_std xs = Some sd /\ (0 <= sd)%R /\ (sd * sd)%R = Q2R (agg_var xs)
            /\ (agg_var xs * inject_Z (Z.of_nat (List.length xs - 1))
                == squared_deviations xs)%Q))
  /\ (Qeq (agg_mean [1; 2; 3]) 2%Q /\ agg_count [1; 2; 3] = 3
      /\ agg_std [1; 2; 3] = Some 1%R)
  /\ exists s : summary,
      course_stats_of three_ranks = [s]
      /\ course s = "Audit" /\ (mean s == 2)%Q /\ count s = 3 /\ std s = Some 1%R.
Proof.
  split; [|split; [|split]].
  - intros records. repeat split.
    + unfold course_stats_of, groupby_Course. rewrite !map_map. cbn. apply map_id.
    + apply sorted_keys_NoDup, group_keys_sorted.
    + apply group_keys_In.
    + apply group_keys_In.
    + unfold course_stats_of, groupby_Course. rewrite map_map.
      apply Forall_forall. intros s Hs. apply in_map_iff in Hs as (k & <- & Hk).
      cbn. repeat split. apply group_nonempty. now apply group_keys_In.
  - intros xs. repeat split.
    + apply agg_mean_total.
    + apply agg_std_small.
    + intros Hn. destruct (agg_std_root xs Hn) as (sd & E & Hp & Hs).
      exists sd. repeat split; auto. now apply agg_var_deviations.
  - repeat split. apply agg_std_123.
  - eexists. split; [reflexivity|]. cbn. repeat split. apply agg_std_123.
Qed.

(** C10. A row has as many records of a course as there are ranking
    columns of that course whose cell in the row is not missing, all under
    different global ranks; the count N of a course is the number of
    records of that course.  With two columns for the course Tax and both
    cells present, the one respondent gets the ranks 1 and 2 for Tax, and N
    is 2. *)
Theorem one_record_per_ranking_column :
  (forall (df : DataFrame) (idx : nat) (row : Series) (c : string),
      let col_map := parse_columns df in
      List.length (filter (fun r => String.eqb (Course r) c)
                          (row_records (columns df) col_map idx row))
        = List.length (filter (fun item => present (columns df) row item
                                           && String.eqb (snd (snd item)) c) col_map)
      /\ NoDup (map Global_Rank (row_records (columns df) col_map idx row)))
  /\ (forall records : list record,
      Forall (fun s => count s
                       = List.length (filter (fun r => String.eqb (Course r) (course s)) records))
             (course_stats_of records))
  /\ calculate_rankings shared_course (parse_columns shared_course)
     = [ {| Student := Num 0; Course := "Tax"; Global_Rank := 1 |};
         {| Student := Num 0; Course := "Tax"; Global_Rank := 2 |} ]
  /\ map (fun s => (course s, count s))
         (course_stats_of (calculate_rankings shared_course (parse_columns shared_course)))
     = [("Tax", 2)].
Proof.
  split; [|split; [|split]].
  - intros df idx row c. cbv zeta. split.
    + apply records_per_course, parse_columns_categories.
    + rewrite row_records_ranks. apply seq_NoDup.
  - intros records. unfold course_stats_of, groupby_Course. rewrite map_map.
    apply Forall_forall. intros s Hs. apply in_map_iff in Hs as (k & <- & _).
    cbn. unfold agg_count, group. apply length_map.
  - reflexivity.
  - reflexivity.
Qed.

(** ** The column classifier *)

Section StripFacts.

Lemma rstrip_idem (s : string) : rstrip (rstrip s) = rstrip s.
Proof.
  induction s as [|c s IH]; [reflexivity|]. cbn [rstrip].
  destruct (rstrip s) as [|d r] eqn:E.
  - destruct (is_space c) eqn:Hc; [reflexivity|]. cbn. now rewrite Hc.
  - remember (String d r) as t eqn:Et. cbn [rstrip]. rewrite IH.
    subst t. reflexivity.
Qed.

Lemma lstrip_rstrip (s : string) : lstrip (rstrip (lstrip s)) = rstrip (lstrip s).
Proof.
  induction s as [|c s IH]; [reflexivity|]. cbn [lstrip].
  destruct (is_space c) eqn:Hc; [exact IH|].
  cbn [rstrip]. destruct (rstrip s); rewrite ?Hc; cbn [lstrip]; now rewrite Hc.
Qed.

Lemma strip_idem (s : string) : strip (strip s) = strip s.
Proof. unfold strip. now rewrite lstrip_rstrip, rstrip_idem. Qed.

End StripFacts.

(** C3, as the code has it.  [parse_header] finds a header exactly when the
    header contains [ - Ranks - ], one of the three category names, [ - ],
    a course text on one line, which may be empty, and [ - Rank]; text may
    follow.  The category found is that name, and the course is the course
    text stripped of white space at both ends, taken as long as the line
    allows before a [ - Rank].  [col_map] holds the columns of the table
    that are found, with what is found.  The header of Survey1 gives Most
    Beneficial and Intro to Systems; the header with the category Foo is not
    found. *)
Theorem header_pattern :
  (forall h : string,
      ((exists meta, parse_header h = Some meta)
       <-> exists before cat c after, ranking_header h before cat c after)
      /\ forall cat course,
          parse_header h = Some (cat, course) ->
          exists before c after,
            ranking_header h before cat c after
            /\ course = strip c /\ strip course = course
            /\ forall c' after',
                (c ++ " - Rank" ++ after = c' ++ " - Rank" ++ after')%string ->
                one_line c' = true -> String.length c' <= String.length c)
  /\ (forall (df : DataFrame) (col : string) (meta : string * string),
      In (col, meta) (parse_columns df)
      <-> In col (columns df) /\ parse_header col = Some meta)
  /\ parse_header "Survey1 - Ranks - Most Beneficial - Intro to Systems - Rank"
     = Some ("Most Beneficial", "Intro to Systems")
  /\ parse_header "X - Ranks - Foo - Bar - Rank" = None.
Proof.
  split; [|split; [|split]].
  - intros h. split; [split|].
    + intros [[cat course] H].
      apply parse_header_sound in H as (before & c & after & H & _).
      now exists before, cat, c, after.
    + intros (before & cat & c & after & H).
      apply parse_header_complete in H.
      destruct (parse_header h) as [meta|]; [now exists meta | congruence].
    + intros cat course H.
      apply parse_header_sound in H as (before & c & after & H & -> & Hmax).
      exists before, c, after. repeat split; auto using strip_idem; apply H.
  - apply parse_columns_In.
  - reflexivity.
  - reflexivity.
Qed.

(** C3 as stated fails: a header with nothing between the separators after
    the category is found, and its course is the empty string; the header
    cannot be read with a course that is not empty. *)
Lemma empty_course_is_accepted :
  parse_header "X - Ranks - Neutral -  - Rank" = Some ("Neutral", "")
  /\ ~ (exists before cat c after,
          ranking_header "X - Ranks - Neutral -  - Rank" before cat c after
          /\ c <> "")
  /\ ~ (forall h cat course, parse_header h = Some (cat, course) -> course <> "").
Proof.
  split; [reflexivity|]. split.
  - intros (before & cat & c & after & (E & Hcat & _) & Hc).
    pose proof (f_equal String.length E) as L.
    rewrite !append_length in L. cbn in L.
    destruct c as [|x c]; [now apply Hc|]. cbn in L.
    destruct Hcat as [->| [->| ->]]; cbn in L; try lia.
    destruct before as [|y before]; cbn in E, L; [discriminate | lia].
  - intros H. exact (H "X - Ranks - Neutral -  - Rank" "Neutral" "" eq_refl eq_refl).
Qed.

(** ** The run as a whole *)

Section RunFacts.

Variable sort_values_by_mean : list summary -> list summary.
Variable to_string : list summary -> string.
Variable repr : list summary -> string.
Variable format_2f : Q -> string.

Local Abbreviation run := (main sort_values_by_mean to_string repr format_2f).
Local Abbreviation events_of := (events_of sort_values_by_mean to_string repr format_2f).

Lemma run_trace (w : world) :
  trace (snd (run w)) = trace w ++ events_of (files w "data/data.xlsx").
Proof.
  unfold main, bind, try_except, read_excel, makedirs, print, write, ret, events_of.
  cbn. destruct (files w "data/data.xlsx") as [[df| |]|]; cbn.
  - destruct (parse_columns df) as [|item cm]; cbn.
    + now rewrite <- app_assoc.
    + destruct (calculate_rankings df (item :: cm)); cbn;
        now rewrite <- !app_assoc.
  - reflexivity.
  - reflexivity.
  - now rewrite <- app_assoc.
Qed.

Lemma run_files (w : world) (p : string) :
  files (snd (run w)) p
    = match written p (events_of (files w "data/data.xlsx")) with
      | Some f => Some f
      | None => files w p
      end.
Proof.
  unfold main, bind, try_except, read_excel, makedirs, print, write, ret, events_of.
  cbn. destruct (files w "data/data.xlsx") as [[df| |]|]; cbn; try reflexivity.
  destruct (parse_columns df) as [|item cm]; cbn; [reflexivity|].
  destruct (calculate_rankings df (item :: cm)); cbn; [reflexivity|].
  destruct (String.eqb p "outputs/rank_order.png"); [reflexivity|].
  destruct (String.eqb p "outputs/ranking.txt"); reflexivity.
Qed.

Lemma run_outcome (w w' : world) :
  files w "data/data.xlsx" = files w' "data/data.xlsx" -> fst (run w) = fst (run w').
Proof.
  unfold main, bind, try_except, read_excel, makedirs, print, write, ret.
  cbn. intros <-. destruct (files w "data/data.xlsx") as [[df| |]|]; cbn; try reflexivity.
  destruct (parse_columns df) as [|item cm]; cbn; [reflexivity|].
  destruct (calculate_rankings df (item :: cm)); reflexivity.
Qed.

(** C7. When the input file is absent, when the table has no ranking
    column, and when the long-form table is empty, the run prints its
    message, ends without an exception and leaves every file as it was;
    nothing is written.  A table whose ranking columns are all empty is a
    case of the third kind. *)
Theorem failure_modes_write_nothing (w : world) :
  (files w "data/data.xlsx" = None ->
   fst (run w) = inl tt
   /\ files (snd (run w)) = files w
   /\ trace (snd (run w))
      = trace w ++ [Printed "Loading data from data/data.xlsx...";
                    Printed "Error: data/data.xlsx not found."])
  /\ (forall df : DataFrame,
      files w "data/data.xlsx" = Some (Workbook df) ->
      parse_columns df = [] ->
      fst (run w) = inl tt
      /\ files (snd (run w)) = files w
      /\ trace (snd (run w))
         = trace w ++ [Printed "Loading data from data/data.xlsx...";
                       Printed "No ranking columns found."])
  /\ (forall df : DataFrame,
      files w "data/data.xlsx" = Some (Workbook df) ->
      parse_columns df <> [] ->
      calculate_rankings df (parse_columns df) = [] ->
      fst (run w) = inl tt
      /\ files (snd (run w)) = files w
      /\ trace (snd (run w))
         = trace w ++ [Printed "Loading data from data/data.xlsx...";
                       Printed ("Found " ++ str_of_nat (List.length (parse_columns df))
                                ++ " ranking columns.");
                       Printed "Calculating global rankings...";
                       Printed "No rankings could be calculated."])
  /\ (parse_columns all_missing <> []
      /\ calculate_rankings all_missing (parse_columns all_missing) = []).
Proof.
  split; [|split; [|split]].
  - intros H. rewrite run_trace, H.
    unfold main, bind, try_except, read_excel, makedirs, print, write, ret.
    cbn. rewrite H. cbn. auto.
  - intros df H Hc. rewrite run_trace, H.
    unfold main, bind, try_except, read_excel, makedirs, print, write, ret, events_of.
    cbn. rewrite H. cbn. rewrite Hc. cbn. auto.
  - intros df H Hc Hr. rewrite run_trace, H.
    unfold main, bind, try_except, read_excel, makedirs, print, write, ret, events_of.
    cbn. rewrite H. cbn. rewrite Hr.
    destruct (parse_columns df) as [|item cm]; [contradiction|]. cbn. auto.
  - split; [discriminate | reflexivity].
Qed.

(** C9. What a run prints and writes, and how it ends, depends on the
    file under the input path only: two runs that find the same input
    print and write the same, in particular the same text report, whatever
    else the two worlds hold.  After a run, a file is what the run wrote
    under its path last, and what it was before when the run wrote nothing
    there. *)
Theorem report_determined_by_input (w1 w2 : world) :
  files w1 "data/data.xlsx" = files w2 "data/data.xlsx" ->
  fst (run w1) = fst (run w2)
  /\ exists t : list event,
      trace (snd (run w1)) = trace w1 ++ t
      /\ trace (snd (run w2)) = trace w2 ++ t
      /\ (forall p, files (snd (run w1)) p
                     = match written p t with Some f => Some f | None => files w1 p end)
      /\ (forall p, files (snd (run w2)) p
                     = match written p t with Some f => Some f | None => files w2 p end).
Proof.
  intros H. split; [now apply run_outcome|].
  exists (events_of (files w1 "data/data.xlsx")). repeat split.
  - apply run_trace.
  - rewrite H. apply run_trace.
  - intros p. apply run_files.
  - intros p. rewrite H. apply run_files.
Qed.

End RunFacts.

(** The two worlds [fresh_world] and [used_world] hold the same input. *)
Lemma report_determined_by_input_witness :
  let run := main (fun t => t) (fun _ => "table") (fun _ => "table") (fun _ => "0.00") in
  files fresh_world "data/data.xlsx" = files used_world "data/data.xlsx"
  /\ fst (run fresh_world) = fst (run used_world)
  /\ exists t : list event,
      trace (snd (run fresh_world)) = trace fresh_world ++ t
      /\ trace (snd (run used_world)) = trace used_world ++ t
      /\ (forall p, files (snd (run fresh_world)) p
                     = match written p t with Some f => Some f | None => files fresh_world p end)
      /\ (forall p, files (snd (run used_world)) p
                     = match written p t with Some f => Some f | None => files used_world p end).
Proof.
  cbv zeta. split; [reflexivity|].
  apply (report_determined_by_input
           (fun t => t) (fun _ => "table") (fun _ => "table") (fun _ => "0.00")
           fresh_world used_world).
  reflexivity.
Defined.

(** The scenario of two respondents, end to end: each course gets the
    global ranks 1 and 2, and both means are 3/2. *)
Example two_respondents_ranked :
  calculate_rankings two_respondents (parse_columns two_respondents)
    = [ {| Student := Num 7; Course := "Course X"; Global_Rank := 1 |};
        {| Student := Num 7; Course := "Course Y"; Global_Rank := 2 |};
        {| Student := Num 8; Course := "Course Y"; Global_Rank := 1 |};
        {| Student := Num 8; Course := "Course X"; Global_Rank := 2 |} ]
  /\ map (fun s => (course s, Qred (mean s), count s))
         (course_stats_of (calculate_rankings two_respondents (parse_columns two_respondents)))
     = [("Course X", (3 # 2)%Q, 2); ("Course Y", (3 # 2)%Q, 2)].
Proof. split; reflexivity. Qed.

(** * Further properties *)

(** ** Which part of a header the pattern takes *)

Section HeaderChoice.

Local Open Scope string_scope.

Lemma match_here_after_prefix (s : string) :
  Re.match_here pattern s = Re.dotstar s after_prefix.
Proof. reflexivity. Qed.

Lemma after_prefix_sound (b : string) (g : Re.groups) :
  after_prefix b = Some g ->
  exists cat c u,
    b = " - Ranks - " ++ cat ++ " - " ++ c ++ " - Rank" ++ u
    /\ is_category cat /\ one_line c = true
    /\ Re.group g 1 = cat /\ Re.group g 2 = c
    /\ forall c' u', c ++ " - Rank" ++ u = c' ++ " - Rank" ++ u' ->
                     one_line c' = true -> String.length c' <= String.length c.
Proof.
  unfold after_prefix. intros Hk.
  destruct (Re.lit " - Ranks - " b) as [s2|] eqn:E1; [|discriminate].
  apply lit_Some in E1. subst b.
  assert (Hcat : exists cat s3, is_category cat /\ s2 = cat ++ s3 /\
            Re.run after_category s3 [(1, cat)] (fun _ g => Some g) = Some g).
  { destruct (Re.lit Most_Beneficial s2) as [s3|] eqn:E2.
    - apply lit_Some in E2. subst s2. rewrite consumed_app in Hk.
      destruct (Re.run after_category s3 _ _) as [g'|] eqn:E3.
      + injection Hk as ->. exists Most_Beneficial, s3. unfold is_category; auto.
      + exfalso. revert Hk. clear. simpl. discriminate.
    - destruct (Re.lit Neutral s2) as [s3|] eqn:E3.
      + apply lit_Some in E3. subst s2. rewrite consumed_app in Hk.
        destruct (Re.run after_category s3 _ _) as [g'|] eqn:E4.
        * injection Hk as ->. exists Neutral, s3. unfold is_category; auto.
        * exfalso. revert Hk. clear. simpl. discriminate.
      + destruct (Re.lit Least_Beneficial s2) as [s3|] eqn:E4; [|discriminate].
        apply lit_Some in E4. subst s2. rewrite consumed_app in Hk.
        exists Least_Beneficial, s3. unfold is_category; auto. }
  destruct Hcat as (cat & s3 & Hc & -> & Hrun).
  apply after_category_sound in Hrun as (c & u & -> & Hone & -> & Hmax).
  exists cat, c, u. repeat split; auto.
Qed.

Lemma after_prefix_complete (cat c u : string) :
  is_category cat -> one_line c = true ->
  after_prefix (" - Ranks - " ++ cat ++ " - " ++ c ++ " - Rank" ++ u) <> None.
Proof.
  intros Hcat Hc.
  pose proof (after_category_complete c u [(1, cat)] Hc) as Hrun.
  destruct (Re.run after_category _ [(1, cat)] _) as [g|] eqn:E; [clear Hrun|congruence].
  unfold after_prefix. rewrite lit_app.
  destruct Hcat as [->| [->| ->]].
  - rewrite lit_app, consumed_app, E. discriminate.
  - change (Re.lit Most_Beneficial (Neutral ++ " - " ++ c ++ " - Rank" ++ u)) with (@None string).
    cbv iota. rewrite lit_app, consumed_app, E. discriminate.
  - change (Re.lit Most_Beneficial (Least_Beneficial ++ " - " ++ c ++ " - Rank" ++ u)) with (@None string).
    change (Re.lit Neutral (Least_Beneficial ++ " - " ++ c ++ " - Rank" ++ u)) with (@None string).
    cbv iota. rewrite lit_app, consumed_app, E. discriminate.
Qed.

Lemma search_first (r : Re.regex) (s : string) :
  Re.match_here r s <> None -> Re.search r s = Re.match_here r s.
Proof.
  intros H. destruct s; cbn [Re.search]; destruct (Re.match_here r _); congruence.
Qed.

Lemma one_line_parts (a b : string) :
  one_line (a ++ b) = true -> one_line a = true /\ one_line b = true.
Proof. rewrite one_line_app. apply andb_true_iff. Qed.

Lemma append_inj_length (a b x y : string) :
  a ++ x = b ++ y -> String.length a = String.length b -> a = b /\ x = y.
Proof.
  revert b. induction a as [|c a IH]; intros [|d b]; cbn; try discriminate.
  - auto.
  - intros [= -> E] [= L]. destruct (IH b E L) as [-> ->]. auto.
Qed.

(** On a header of one line the pattern takes the last place at which it
    can be read. *)
Lemma parse_header_last (h cat course : string) :
  one_line h = true ->
  parse_header h = Some (cat, course) ->
  exists before c after,
    ranking_header h before cat c after /\ course = strip c
    /\ (forall c' after', c ++ " - Rank" ++ after = c' ++ " - Rank" ++ after' ->
                          one_line c' = true -> String.length c' <= String.length c)
    /\ forall before' cat' c' after',
        ranking_header h before' cat' c' after' ->
        String.length before' <= String.length before.
Proof.
  intros Hone Hp.
  assert (Hm : Re.match_here pattern h <> None).
  { apply parse_header_sound in Hp as (b0 & c0 & a0 & (E & Hcat & Hc) & _).
    rewrite match_here_after_prefix. subst h.
    apply one_line_parts in Hone as [Hb _].
    pose proof (after_prefix_complete cat c0 a0 Hcat Hc) as Hk.
    destruct (after_prefix _) as [g|] eqn:Eg; [|congruence].
    exact (dotstar_complete after_prefix b0 _ g Hb Eg). }
  unfold parse_header in Hp. rewrite (search_first _ _ Hm) in Hp.
  destruct (Re.match_here pattern h) as [g|] eqn:Eg; [|discriminate].
  injection Hp as <- <-.
  rewrite match_here_after_prefix in Eg.
  apply dotstar_sound in Eg as (a & b & -> & Ha & Hk & Hmax).
  apply after_prefix_sound in Hk as (cat & c & u & -> & Hcat & Hc & <- & <- & Hgreedy).
  exists a, (Re.group g 2), u. unfold ranking_header. repeat split; auto.
  intros before' cat' c' after' (E & Hcat' & Hc').
  destruct (le_lt_dec (String.length before') (String.length a)) as [|Hlt]; [assumption|].
  exfalso. apply (after_prefix_complete cat' c' after' Hcat' Hc').
  apply (Hmax before' _ E); [|exact Hlt].
  rewrite E in Hone. now apply one_line_parts in Hone.
Qed.

Lemma substring_middle (a b c : string) :
  substring (String.length a) (String.length b) (a ++ b ++ c) = b.
Proof.
  induction a as [|x a IH]; cbn [String.length append].
  - induction b as [|y b IHb]; cbn; [now destruct c | now rewrite IHb].
  - cbn. exact IH.
Qed.

Lemma category_prefix_free (cat cat' x y : string) :
  is_category cat -> is_category cat' ->
  cat ++ " - " ++ x = cat' ++ " - " ++ y -> cat = cat' /\ x = y.
Proof.
  intros [->| [->| ->]] [->| [->| ->]]; cbn; intros E;
    try discriminate; injection E as ->; auto.
Qed.

End HeaderChoice.

(** X1. A header of one line that reads prefix, [ - Ranks - ], category,
    [ - ], course, [ - Rank], and in which no [ - Ranks - ] begins after
    the one that follows the prefix, is found with that category and with
    the course stripped of white space at both ends. *)
Theorem header_round_trip (p cat c : string) :
  is_category cat ->
  one_line p = true ->
  one_line c = true ->
  index (S (String.length p)) " - Ranks - " (make_header p cat c) = None ->
  parse_header (make_header p cat c) = Some (cat, strip c).
Proof.
  intros Hcat Hp Hc Hlast.
  assert (Hh : ranking_header (make_header p cat c) p cat c "").
  { unfold ranking_header, make_header. now rewrite append_nil_r. }
  assert (Hone : one_line (make_header p cat c) = true).
  { unfold make_header. rewrite !one_line_app, Hp, Hc.
    destruct Hcat as [->| [->| ->]]; reflexivity. }
  pose proof (parse_header_complete _ _ _ _ _ Hh) as Hsome.
  destruct (parse_header (make_header p cat c)) as [[cat' course']|] eqn:E; [|congruence].
  apply (parse_header_last _ _ _ Hone) in E
    as (before & c' & after & (Eh & Hcat' & Hc') & -> & Hgreedy & Hmax).
  assert (Hle : String.length before <= String.length p).
  { destruct (le_lt_dec (String.length before) (String.length p)) as [|Hlt]; [assumption|].
    exfalso.
    apply (index_correct3 _ (String.length before) _ _ Hlast); [discriminate | lia |].
    rewrite Eh at 1. apply (substring_middle before " - Ranks - "). }
  pose proof (Hmax p cat c "" Hh) as Hge.
  unfold make_header in Eh.
  destruct (append_inj_length p before _ _ Eh ltac:(lia)) as [<- Erest].
  injection Erest as Erest.
  destruct (category_prefix_free cat cat' _ _ Hcat Hcat' Erest) as [<- Ec].
  assert (Hlen : String.length c <= String.length c').
  { apply (Hgreedy c ""); [|exact Hc]. symmetry. exact Ec. }
  pose proof (f_equal String.length Ec) as L. rewrite !append_length in L. cbn in L.
  destruct (append_inj_length c c' _ _ Ec ltac:(lia)) as [<- _].
  reflexivity.
Qed.

(** The header of Survey1 meets the conditions of the round trip. *)
Lemma header_round_trip_witness :
  parse_header (make_header "Survey1" "Most Beneficial" "Intro to Systems ")
  = Some ("Most Beneficial", strip "Intro to Systems ").
Proof.
  apply header_round_trip.
  - left. reflexivity.
  - reflexivity.
  - reflexivity.
  - vm_compute. reflexivity.
Defined.

(** X2. When a header of one line can be read as a ranking header at
    several places, [parse_header] takes the last one: the category and the
    course it returns come from a reading whose text before [ - Ranks - ]
    is at least as long as that of every other reading, and whose course
    runs up to the last [ - Rank]. *)
Theorem last_reading_wins (h cat course : string) :
  one_line h = true ->
  parse_header h = Some (cat, course) ->
  exists before c after,
    ranking_header h before cat c after /\ course = strip c
    /\ (forall c' after',
           (c ++ " - Rank" ++ after = c' ++ " - Rank" ++ after')%string ->
           one_line c' = true -> String.length c' <= String.length c)
    /\ forall before' cat' c' after',
        ranking_header h before' cat' c' after' ->
        String.length before' <= String.length before.
Proof. apply parse_header_last. Qed.

(** A header that names two categories is read with the second. *)
Lemma last_reading_wins_witness :
  exists before c after,
    ranking_header "A - Ranks - Most Beneficial - B - Ranks - Neutral - C - Rank"
                   before "Neutral" c after
    /\ "C" = strip c
    /\ (forall c' after',
           (c ++ " - Rank" ++ after = c' ++ " - Rank" ++ after')%string ->
           one_line c' = true -> String.length c' <= String.length c)
    /\ forall before' cat' c' after',
        ranking_header "A - Ranks - Most Beneficial - B - Ranks - Neutral - C - Rank"
                       before' cat' c' after' ->
        String.length before' <= String.length before.
Proof.
  apply (last_reading_wins
           "A - Ranks - Most Beneficial - B - Ranks - Neutral - C - Rank" "Neutral" "C");
    reflexivity.
Defined.

(** X3. The pattern is anchored at neither end: a header that is found is
    still found with any text put before it and any text put after it. *)
Theorem found_within_longer_header (h p t : string) :
  parse_header h <> None -> parse_header (p ++ h ++ t)%string <> None.
Proof.
  intros H. destruct (parse_header h) as [[cat course]|] eqn:E; [clear H|congruence].
  apply parse_header_sound in E as (before & c & after & (-> & Hcat & Hc) & _).
  apply (parse_header_complete _ (p ++ before)%string cat c (after ++ t)%string).
  unfold ranking_header. repeat split; auto.
  now rewrite !append_assoc.
Qed.

(** A label that the table reader has numbered is still found. *)
Lemma found_within_longer_header_witness :
  parse_header ("" ++ "Q1 - Ranks - Neutral - Tax - Rank" ++ ".1")%string <> None.
Proof.
  apply found_within_longer_header. vm_compute. discriminate.
Defined.

(** X4. [col_map] has one entry for each ranking label: its keys are
    labels of the table, no key occurs twice, and so it has at most as many
    entries as the table has columns. *)
Theorem col_map_keys (df : DataFrame) :
  NoDup (map fst (parse_columns df))
  /\ incl (map fst (parse_columns df)) (columns df)
  /\ List.length (parse_columns df) <= List.length (columns df).
Proof.
  assert (Hincl : incl (map fst (parse_columns df)) (columns df)).
  { intros col Hin. apply in_map_iff in Hin as ([col' meta] & <- & Hin).
    now apply parse_columns_In in Hin. }
  repeat split; [apply parse_columns_keys | exact Hincl |].
  rewrite <- (length_map fst).
  apply NoDup_incl_length; [apply parse_columns_keys | exact Hincl].
Qed.

(** ** Column maps of any kind, and the size of the long-form table *)

Section AnyColumnMap.

Variable cols : list string.

Lemma is_categoryb_spec (cat : string) : is_categoryb cat = true <-> is_category cat.
Proof.
  unfold is_categoryb, is_category, Most_Beneficial, Neutral, Least_Beneficial.
  rewrite !orb_true_iff, !String.eqb_eq. tauto.
Qed.

Lemma buckets_cover_any (row : Series) (cm : col_map_t) :
  List.length (entries_of cols row Most_Beneficial cm)
  + List.length (entries_of cols row Neutral cm)
  + List.length (entries_of cols row Least_Beneficial cm)
  = ranked_entries cols cm row.
Proof.
  unfold ranked_entries, Most_Beneficial, Neutral, Least_Beneficial.
  induction cm as [|item cm IH]; [reflexivity|].
  rewrite !(entries_of_cons _ _ _ item cm), !length_app.
  cbn [filter]. unfold ranked at 1, present at 1.
  unfold entries_of at 1 3 5. cbn [flat_map]. rewrite !app_nil_r.
  destruct item as [col [cat crs]]. cbn [fst snd].
  destruct (getitem cols row col) as [|v]; cbn [notna andb]; [cbn; lia|].
  unfold is_categoryb.
  destruct (String.eqb_spec cat "Most Beneficial") as [->|H1]; [cbn in *; lia|].
  destruct (String.eqb_spec cat "Neutral") as [->|H2]; [cbn in *; lia|].
  destruct (String.eqb_spec cat "Least Beneficial") as [->|H3]; cbn in *; lia.
Qed.

Lemma row_records_length (cm : col_map_t) (idx : nat) (row : Series) :
  List.length (row_records cols cm idx row) = ranked_entries cols cm row.
Proof.
  rewrite <- (length_map Global_Rank), row_records_ranks, length_seq.
  apply buckets_cover_any.
Qed.

Lemma ranked_non_missing (cm : col_map_t) (row : Series) :
  Forall (fun item => is_category (fst (snd item))) cm ->
  ranked_entries cols cm row = non_missing cols cm row.
Proof.
  intros H. rewrite <- buckets_cover_any. now apply buckets_cover.
Qed.

Lemma flat_map_rows_length (cm : col_map_t) (rs : list Series) (i : nat) :
  List.length (flat_map (fun ir => row_records cols cm (fst ir) (snd ir)) (enumerate i rs))
  = list_sum (map (ranked_entries cols cm) rs).
Proof.
  revert i. induction rs as [|row rs IH]; intros i; cbn; [reflexivity|].
  now rewrite length_app, IH, row_records_length.
Qed.

Lemma list_sum_zero (l : list nat) : list_sum l = 0 <-> Forall (fun n => n = 0) l.
Proof.
  induction l as [|n l IH].
  - split; [constructor | reflexivity].
  - change (list_sum (n :: l)) with (n + list_sum l). split.
    + intros H. constructor; [lia|]. apply IH. lia.
    + intros H. inversion H as [|? ? Hn Hl]; subst. apply IH in Hl. lia.
Qed.

End AnyColumnMap.


(** X6. The long-form table has as many records as the rows have ranked
    entries together, and it is empty exactly when no row has a ranked
    entry: with the column map of [parse_columns], when every cell of every
    ranking column is missing, or the table has no row. *)
Theorem long_form_size (df : DataFrame) (col_map : col_map_t) :
  List.length (calculate_rankings df col_map)
  = list_sum (map (ranked_entries (columns df) col_map) (rows df))
  /\ (calculate_rankings df col_map = []
      <-> Forall (fun row => ranked_entries (columns df) col_map row = 0) (rows df))
  /\ (calculate_rankings df (parse_columns df) = []
      <-> Forall (fun row => non_missing (columns df) (parse_columns df) row = 0) (rows df)).
Proof.
  assert (L : forall cm, List.length (calculate_rankings df cm)
                         = list_sum (map (ranked_entries (columns df) cm) (rows df))).
  { intros cm. rewrite calculate_rankings_rows. apply flat_map_rows_length. }
  assert (E : forall cm, calculate_rankings df cm = []
                         <-> Forall (fun row => ranked_entries (columns df) cm row = 0) (rows df)).
  { intros cm. rewrite <- length_zero_iff_nil, L, list_sum_zero, Forall_map. reflexivity. }
  split; [apply L|]. split; [apply E|].
  rewrite E. split; intros H; eapply Forall_impl; try exact H; intros row Hr; cbv beta in *;
    [rewrite <- ranked_non_missing | rewrite ranked_non_missing];
    auto using parse_columns_categories.
Qed.

(** ** Global ranks by counting *)

Section RankByCounting.

Variable sid : value.

Lemma smaller_head (e : entry) (l : list entry) :
  Forall (by_rank e) l -> smaller (e :: l) e = 0.
Proof.
  unfold smaller. cbn [filter]. rewrite Z.ltb_irrefl.
  induction 1 as [|x l Hx _ IH]; [reflexivity|]. cbn [filter].
  unfold by_rank in Hx. destruct (Z.ltb_spec (snd x) (snd e)); [lia | exact IH].
Qed.

Lemma smaller_tail (e x : entry) (l : list entry) :
  by_rank e x -> snd e <> snd x -> smaller (e :: l) x = S (smaller l x).
Proof.
  unfold smaller, by_rank. intros Hle Hne. cbn [filter].
  destruct (Z.ltb_spec (snd e) (snd x)); [reflexivity | lia].
Qed.

Lemma numbered_by_counting (l : list entry) (n : nat) :
  StronglySorted by_rank l -> NoDup (map snd l) ->
  numbered sid n l
  = map (fun e : entry =>
           {| Student := sid; Course := fst e; Global_Rank := n + smaller l e |}) l.
Proof.
  intros Hs. revert n. induction Hs as [|e l Hs IH He]; intros n Hnd; [reflexivity|].
  cbn [numbered map]. inversion Hnd as [|? ? Hnotin Hnd']; subst.
  rewrite (smaller_head e l He), Nat.add_0_r. f_equal.
  rewrite (IH (S n) Hnd'). apply map_ext_in. intros x Hx.
  rewrite smaller_tail.
  - f_equal. lia.
  - rewrite Forall_forall in He. now apply He.
  - intros E. apply Hnotin. rewrite E. now apply in_map.
Qed.

Lemma smaller_perm (l l' : list entry) (e : entry) :
  Permutation l l' -> smaller l e = smaller l' e.
Proof. intros H. unfold smaller. now apply filter_length_perm. Qed.

Lemma numbered_placed (bucket : list entry) (offset : nat) :
  NoDup (map snd bucket) ->
  numbered sid (1 + offset) (sort_by_rank bucket) = placed sid offset bucket.
Proof.
  intros Hnd. unfold placed. rewrite numbered_by_counting.
  - apply map_ext. intros e.
    now rewrite <- (smaller_perm _ _ e (sort_by_rank_perm bucket)).
  - apply sort_by_rank_sorted.
  - eapply Permutation_NoDup; [|exact Hnd].
    apply Permutation_map, sort_by_rank_perm.
Qed.

End RankByCounting.

(** X7. When the raw ranks within each bucket of a row are all different,
    the global rank of an entry is one, plus the number of the row's
    entries in the buckets that come before, plus the number of entries of
    its own bucket with a smaller raw rank. *)
Theorem global_rank_by_counting
        (cols : list string) (col_map : col_map_t) (idx : nat) (row : Series) :
  let mb := entries_of cols row Most_Beneficial col_map in
  let ne := entries_of cols row Neutral col_map in
  let lb := entries_of cols row Least_Beneficial col_map in
  NoDup (map snd mb) -> NoDup (map snd ne) -> NoDup (map snd lb) ->
  row_records cols col_map idx row
  = placed (student_of cols idx row) 0 mb
    ++ placed (student_of cols idx row) (List.length mb) ne
    ++ placed (student_of cols idx row) (List.length mb + List.length ne) lb.
Proof.
  cbv zeta. intros H1 H2 H3.
  pose proof (row_records_parts cols col_map idx row) as H. cbv zeta in H.
  rewrite H, !sort_by_rank_length.
  rewrite <- (numbered_placed _ _ 0 H1), <- (numbered_placed _ _ _ H2),
          <- (numbered_placed _ _ _ H3).
  repeat f_equal; lia.
Qed.

(** Tax is ranked 2 and Audit 1 among the Most Beneficial, Law follows as
    the only Neutral entry. *)
Lemma global_rank_by_counting_witness :
  row_records (columns three_courses) (parse_columns three_courses) 0 [Num 2; Num 1; Num 1]
  = [ {| Student := Num 0; Course := "Audit"; Global_Rank := 1 |};
      {| Student := Num 0; Course := "Tax"; Global_Rank := 2 |};
      {| Student := Num 0; Course := "Law"; Global_Rank := 3 |} ].
Proof.
  rewrite (global_rank_by_counting
             (columns three_courses) (parse_columns three_courses) 0 [Num 2; Num 1; Num 1]).
  - reflexivity.
  - vm_compute. repeat constructor; cbn; intuition discriminate.
  - vm_compute. repeat constructor; cbn; intuition discriminate.
  - vm_compute. repeat constructor.
Defined.

(** ** The groups as a partition of the records *)

Section GroupFacts.

Lemma list_sum_map_add {A : Type} (f g : A -> nat) (l : list A) :
  list_sum (map (fun x => f x + g x) l) = list_sum (map f l) + list_sum (map g l).
Proof.
  induction l as [|x l IH]; [reflexivity|].
  change (f x + g x + list_sum (map (fun x => f x + g x) l)
          = f x + list_sum (map f l) + (g x + list_sum (map g l))).
  lia.
Qed.

Lemma one_key_matches (c : string) (ks : list string) :
  NoDup ks -> In c ks ->
  list_sum (map (fun k => if String.eqb c k then 1 else 0) ks) = 1.
Proof.
  induction 1 as [|k ks Hk Hnd IH]; [intros []|].
  change (In c (k :: ks) ->
          (if String.eqb c k then 1 else 0)
          + list_sum (map (fun k => if String.eqb c k then 1 else 0) ks) = 1).
  intros [->|Hin].
  - rewrite String.eqb_refl.
    assert (Z : list_sum (map (fun k => if String.eqb c k then 1 else 0) ks) = 0).
    { clear IH Hnd. induction ks as [|k' ks IH]; [reflexivity|].
      change ((if String.eqb c k' then 1 else 0)
              + list_sum (map (fun k => if String.eqb c k then 1 else 0) ks) = 0).
      destruct (String.eqb_spec c k') as [->|_]; [elim Hk; now left|].
      rewrite IH; [reflexivity|]. intros H. apply Hk. now right. }
    lia.
  - destruct (String.eqb_spec c k) as [->|_]; [contradiction|]. now rewrite IH.
Qed.

Lemma groups_partition (records : list record) (ks : list string) :
  NoDup ks -> incl (map Course records) ks ->
  list_sum (map (fun k => List.length (filter (fun r => String.eqb (Course r) k) records)) ks)
  = List.length records.
Proof.
  intros Hnd. induction records as [|r rs IH]; intros Hincl.
  - cbn. induction ks as [|k ks IHk]; [reflexivity|]. cbn in *.
    inversion Hnd; subst. apply IHk; [assumption | intros ? []].
  - rewrite (map_ext _ (fun k => (if String.eqb (Course r) k then 1 else 0)
                                 + List.length (filter (fun r0 => String.eqb (Course r0) k) rs))).
    + rewrite list_sum_map_add, one_key_matches, IH.
      * reflexivity.
      * intros c Hc. apply Hincl. now right.
      * assumption.
      * apply Hincl. now left.
    + intros k. cbn [filter]. destruct (String.eqb (Course r) k); reflexivity.
Qed.

Lemma course_stats_counts (records : list record) :
  map count (course_stats_of records)
  = map (fun k => List.length (filter (fun r => String.eqb (Course r) k) records))
        (group_keys records).
Proof.
  unfold course_stats_of, groupby_Course. rewrite !map_map.
  apply map_ext. intros k. cbn. unfold agg_count, group. apply length_map.
Qed.

Lemma course_stats_courses (records : list record) :
  map course (course_stats_of records) = group_keys records.
Proof.
  unfold course_stats_of, groupby_Course. rewrite !map_map. cbn. apply map_id.
Qed.

End GroupFacts.

(** X8. Every record is counted in exactly one row of the summary: the
    counts N of all courses add up to the number of records of the
    long-form table. *)
Theorem counts_add_up (records : list record) :
  list_sum (map count (course_stats_of records)) = List.length records.
Proof.
  rewrite course_stats_counts. apply groups_partition.
  - apply sorted_keys_NoDup, group_keys_sorted.
  - intros c Hc. now apply group_keys_In.
Qed.

(** X9. Before it is sorted by mean, the summary lists the courses in
    strictly ascending order of their names, compared character by
    character, whatever the order of the records. *)
Theorem summary_in_name_order (records : list record) :
  StronglySorted slt (map course (course_stats_of records)).
Proof. rewrite course_stats_courses. apply group_keys_sorted. Qed.

(** ** Bounds *)

Section BoundFacts.

Lemma filter_length_bound {A : Type} (f : A -> bool) (l : list A) :
  List.length (filter f l) <= List.length l.
Proof.
  induction l as [|x l IH]; [reflexivity|]. cbn. destruct (f x); cbn; lia.
Qed.

Lemma list_sum_bounds (xs : list nat) (a b : nat) :
  Forall (fun x => a <= x <= b) xs ->
  a * List.length xs <= list_sum xs <= b * List.length xs.
Proof.
  induction 1 as [|x xs Hx _ IH]; [cbn; lia|].
  change (list_sum (x :: xs)) with (x + list_sum xs). cbn [List.length]. lia.
Qed.

Lemma agg_mean_bounds (xs : list nat) (a b : nat) :
  xs <> [] -> Forall (fun x => a <= x <= b) xs ->
  (inject_Z (Z.of_nat a) <= agg_mean xs)%Q
  /\ (agg_mean xs <= inject_Z (Z.of_nat b))%Q.
Proof.
  intros Hne H. apply list_sum_bounds in H.
  assert (Hn : (0 < inject_Z (Z.of_nat (List.length xs)))%Q).
  { destruct xs as [|x xs]; [contradiction|]. unfold Qlt. cbn. lia. }
  unfold agg_mean, total. split.
  - apply Qle_shift_div_l; [exact Hn|].
    rewrite <- inject_Z_mult, <- Zle_Qle. lia.
  - apply Qle_shift_div_r; [exact Hn|].
    rewrite <- inject_Z_mult, <- Zle_Qle. lia.
Qed.

Lemma row_records_bounds (cols : list string) (cm : col_map_t) (idx : nat) (row : Series) :
  Forall (fun r => 1 <= Global_Rank r <= List.length cm) (row_records cols cm idx row).
Proof.
  apply Forall_forall. intros r Hr. apply (in_map Global_Rank) in Hr.
  rewrite row_records_ranks, buckets_cover_any in Hr. apply in_seq in Hr.
  pose proof (filter_length_bound (ranked cols row) cm) as Hle.
  unfold ranked_entries in Hr. lia.
Qed.

Lemma calculate_rankings_bounds (df : DataFrame) (cm : col_map_t) :
  Forall (fun r => 1 <= Global_Rank r <= List.length cm) (calculate_rankings df cm).
Proof.
  rewrite calculate_rankings_rows. apply Forall_forall. intros r Hr.
  apply in_flat_map in Hr as (ir & _ & Hr).
  pose proof (row_records_bounds (columns df) cm (fst ir) (snd ir)) as H.
  rewrite Forall_forall in H. now apply H.
Qed.

Lemma group_bounds (records : list record) (k : string) (a b : nat) :
  Forall (fun r => a <= Global_Rank r <= b) records ->
  Forall (fun x => a <= x <= b) (group records k).
Proof.
  intros H. unfold group. apply Forall_forall. intros x Hx.
  apply in_map_iff in Hx as (r & <- & Hr). apply filter_In in Hr as [Hr _].
  rewrite Forall_forall in H. now apply H.
Qed.

End BoundFacts.

(** X10. Every global rank of the long-form table lies between 1 and the
    number of entries of the column map, and so does the mean of every
    course; every course of the summary has at least one record and at most
    as many as the table has. *)
Theorem ranks_and_means_are_bounded (df : DataFrame) (col_map : col_map_t) :
  let records := calculate_rankings df col_map in
  Forall (fun r => 1 <= Global_Rank r <= List.length col_map) records
  /\ Forall (fun s : summary =>
               (1 <= mean s)%Q
               /\ (mean s <= inject_Z (Z.of_nat (List.length col_map)))%Q
               /\ 1 <= count s <= List.length records)
            (course_stats_of records).
Proof.
  cbv zeta. split; [apply calculate_rankings_bounds|].
  unfold course_stats_of, groupby_Course. rewrite map_map.
  apply Forall_forall. intros s Hs. apply in_map_iff in Hs as (k & <- & Hk).
  cbn [agg fst snd mean count].
  assert (Hne : group (calculate_rankings df col_map) k <> []).
  { apply group_nonempty. now apply group_keys_In. }
  destruct (agg_mean_bounds _ 1 (List.length col_map) Hne
              (group_bounds _ k _ _ (calculate_rankings_bounds df col_map))) as [Hlo Hhi].
  repeat split; try assumption.
  - unfold agg_count. destruct (group _ k); [contradiction | cbn; lia].
  - unfold agg_count, group. rewrite length_map. apply filter_length_bound.
Qed.

(** ** The order of the respondents *)

Section RowOrderFacts.

Lemma numbered_course_rank (sid sid' : value) (n : nat) (l : list entry) :
  map course_rank (numbered sid n l) = map course_rank (numbered sid' n l).
Proof.
  revert n. induction l as [|e l IH]; intros n; cbn; [reflexivity | now rewrite IH].
Qed.

Lemma row_records_course_rank (cols : list string) (cm : col_map_t) (idx idx' : nat)
      (row : Series) :
  map course_rank (row_records cols cm idx row)
  = map course_rank (row_records cols cm idx' row).
Proof.
  pose proof (row_records_parts cols cm idx row) as H. cbv zeta in H. rewrite H.
  pose proof (row_records_parts cols cm idx' row) as H'. cbv zeta in H'. rewrite H'.
  rewrite !map_app.
  now rewrite !(numbered_course_rank (student_of cols idx row) (student_of cols idx' row)).
Qed.

Lemma rows_course_rank (cols : list string) (cm : col_map_t) (rs : list Series) (i : nat) :
  map course_rank
      (flat_map (fun ir => row_records cols cm (fst ir) (snd ir)) (enumerate i rs))
  = flat_map (fun row => map course_rank (row_records cols cm 0 row)) rs.
Proof.
  revert i. induction rs as [|row rs IH]; intros i; cbn; [reflexivity|].
  now rewrite map_app, IH, (row_records_course_rank cols cm i 0).
Qed.

Lemma Permutation_filter_keep {A : Type} (f : A -> bool) (l l' : list A) :
  Permutation l l' -> Permutation (filter f l) (filter f l').
Proof.
  induction 1 as [|x l l' _ IH|x y l|l l' l'' _ IH1 _ IH2]; cbn.
  - constructor.
  - destruct (f x); [now constructor | assumption].
  - destruct (f x), (f y); try reflexivity. apply perm_swap.
  - now transitivity (filter f l').
Qed.

Lemma group_of_course_rank (records : list record) (k : string) :
  group records k
  = map snd (filter (fun p : string * nat => String.eqb (fst p) k) (map course_rank records)).
Proof.
  unfold group. induction records as [|r rs IH]; [reflexivity|]. cbn.
  destruct (String.eqb (Course r) k); cbn; now rewrite IH.
Qed.

Lemma agg_mean_perm (xs ys : list nat) : Permutation xs ys -> agg_mean xs = agg_mean ys.
Proof.
  intros H. unfold agg_mean, total.
  now rewrite (Permutation_length H), (Permutation_list_sum H).
Qed.

Lemma sorted_keys_ext (l l' : list string) :
  StronglySorted slt l -> StronglySorted slt l' ->
  (forall x, In x l <-> In x l') -> l = l'.
Proof.
  intros Hl. revert l'. induction Hl as [|a l Hl IH Ha]; intros l' Hl' Hin.
  - destruct l' as [|b l']; [reflexivity|]. destruct (proj2 (Hin b)). now left.
  - destruct Hl' as [|b l' Hl' Hb]; [destruct (proj1 (Hin a)); now left|].
    rewrite Forall_forall in Ha, Hb.
    assert (E : a = b).
    { destruct (proj1 (Hin a) (or_introl eq_refl)) as [E|Hab]; [now symmetry|].
      destruct (proj2 (Hin b) (or_introl eq_refl)) as [E|Hba]; [assumption|].
      exfalso. apply (slt_irrefl a). apply (slt_trans a b a); auto. }
    subst b. f_equal. apply IH; [assumption|].
    intros x. split; intros Hx.
    + destruct (proj1 (Hin x) (or_intror Hx)) as [<-|H]; [|assumption].
      exfalso. exact (slt_irrefl a (Ha a Hx)).
    + destruct (proj2 (Hin x) (or_intror Hx)) as [<-|H]; [|assumption].
      exfalso. exact (slt_irrefl a (Hb a Hx)).
Qed.

Lemma course_stats_perm (records records' : list record) :
  Permutation (map course_rank records) (map course_rank records') ->
  map course_mean_count (course_stats_of records)
  = map course_mean_count (course_stats_of records').
Proof.
  intros H.
  assert (K : group_keys records = group_keys records').
  { apply sorted_keys_ext; try apply group_keys_sorted.
    intros x. rewrite !group_keys_In.
    assert (E : forall rs, map Course rs = map fst (map course_rank rs))
      by (intros rs; rewrite map_map; reflexivity).
    rewrite !E. split; apply Permutation_in; [|symmetry]; now apply Permutation_map. }
  unfold course_stats_of, groupby_Course. rewrite !map_map, K.
  apply map_ext. intros k. unfold course_mean_count. cbn.
  assert (G : Permutation (group records k) (group records' k)).
  { rewrite !group_of_course_rank. now apply Permutation_map, Permutation_filter_keep. }
  unfold agg_count. now rewrite (agg_mean_perm _ _ G), (Permutation_length G).
Qed.

End RowOrderFacts.

(** X11. The order of the respondents does not matter to the summary: two
    tables with the same columns whose rows are the same up to their order
    give the same courses with the same mean and the same count, for any
    column map. *)
Theorem summary_ignores_row_order
        (cols : list string) (col_map : col_map_t) (rs rs' : list Series) :
  Permutation rs rs' ->
  map course_mean_count
      (course_stats_of (calculate_rankings {| columns := cols; rows := rs |} col_map))
  = map course_mean_count
        (course_stats_of (calculate_rankings {| columns := cols; rows := rs' |} col_map)).
Proof.
  intros H. apply course_stats_perm.
  rewrite !calculate_rankings_rows. cbn [columns rows].
  rewrite !rows_course_rank. now apply Permutation_flat_map.
Qed.

(** The two respondents in either order. *)
Lemma summary_ignores_row_order_witness :
  map course_mean_count
      (course_stats_of
         (calculate_rankings
            {| columns := columns two_respondents;
               rows := [[Num 7; Num 1; Num 1; NaN; NaN; NaN];
                        [Num 8; NaN; NaN; Num 1; Num 1; NaN]] |}
            (parse_columns two_respondents)))
  = map course_mean_count
        (course_stats_of
           (calculate_rankings
              {| columns := columns two_respondents;
                 rows := [[Num 8; NaN; NaN; Num 1; Num 1; NaN];
                          [Num 7; Num 1; Num 1; NaN; NaN; NaN]] |}
              (parse_columns two_respondents))).
Proof.
  apply summary_ignores_row_order. apply perm_swap.
Defined.

(** ** A course on which all agree *)

Section UnanimousFacts.

Lemma list_sum_same (xs : list nat) (x : nat) :
  Forall (eq x) xs -> list_sum xs = x * List.length xs.
Proof.
  induction 1 as [|y xs Hy _ IH]; [cbn; lia|]. subst y.
  change (list_sum (x :: xs)) with (x + list_sum xs). cbn [List.length]. lia.
Qed.

Lemma agg_mean_same (xs : list nat) (x : nat) :
  xs <> [] -> Forall (eq x) xs -> (agg_mean xs == inject_Z (Z.of_nat x))%Q.
Proof.
  intros Hne H. unfold agg_mean, total.
  rewrite (list_sum_same xs x H), Nat2Z.inj_mul, inject_Z_mult.
  assert (Hn : ~ (inject_Z (Z.of_nat (List.length xs)) == 0)%Q).
  { destruct xs as [|y xs]; [contradiction|]. unfold Qeq. cbn. lia. }
  field. exact Hn.
Qed.

Lemma deviations_same (xs : list nat) (x : nat) (m : Q) :
  (m == inject_Z (Z.of_nat x))%Q -> Forall (eq x) xs ->
  (fold_right Qplus 0
     (map (fun y => (inject_Z (Z.of_nat y) - m) * (inject_Z (Z.of_nat y) - m)) xs) == 0)%Q.
Proof.
  intros Hm. induction 1 as [|y xs Hy _ IH]; [reflexivity|]. subst y.
  cbn [map fold_right]. rewrite IH, Hm. ring.
Qed.

Lemma agg_var_same (xs : list nat) (x : nat) :
  xs <> [] -> Forall (eq x) xs -> (agg_var xs == 0)%Q.
Proof.
  intros Hne H. unfold agg_var, squared_deviations.
  rewrite (deviations_same xs x _ (agg_mean_same xs x Hne H) H).
  unfold Qdiv. apply Qmult_0_l.
Qed.

End UnanimousFacts.

(** X12. A course to which all of at least two records give the same
    global rank has that rank as its mean and the standard deviation 0. *)
Theorem unanimous_course_has_no_spread (xs : list nat) (x : nat) :
  2 <= List.length xs -> Forall (eq x) xs ->
  (agg_mean xs == inject_Z (Z.of_nat x))%Q /\ agg_std xs = Some 0%R.
Proof.
  intros Hn H.
  assert (Hne : xs <> []) by (destruct xs; [cbn in Hn; lia | discriminate]).
  split; [now apply agg_mean_same|].
  unfold agg_std. destruct (Nat.ltb_spec (List.length xs) 2) as [Hlt|_]; [lia|].
  f_equal. rewrite (Qeq_eqR _ 0%Q (agg_var_same xs x Hne H)).
  rewrite RMicromega.Q2R_0. apply sqrt_0.
Qed.

(** Three records with the global rank 2. *)
Lemma unanimous_course_has_no_spread_witness :
  Qeq (agg_mean [2; 2; 2]) (inject_Z (Z.of_nat 2)) /\ agg_std [2; 2; 2] = Some 0%R.
Proof.
  apply unanimous_course_has_no_spread.
  - cbn. lia.
  - repeat constructor.
Defined.

(** ** What a run leaves behind *)

Section RunEffects.

Variable sort_values_by_mean : list summary -> list summary.
Variable to_string : list summary -> string.
Variable repr : list summary -> string.
Variable format_2f : Q -> string.

Local Abbreviation run := (main sort_values_by_mean to_string repr format_2f).
Local Abbreviation events := (events_of sort_values_by_mean to_string repr format_2f).

Lemma run_dirs (w : world) :
  dirs (snd (run w))
  = if existsb (String.eqb "outputs") (dirs w) then dirs w else dirs w ++ ["outputs"].
Proof.
  unfold main, bind, try_except, read_excel, makedirs, print, write, ret.
  cbn. destruct (files w "data/data.xlsx") as [[df| |]|]; cbn; try reflexivity.
  destruct (parse_columns df) as [|item cm]; cbn; [reflexivity|].
  destruct (calculate_rankings df (item :: cm)); reflexivity.
Qed.

Lemma input_not_written (input : option file) :
  written "data/data.xlsx" (events input) = None.
Proof.
  unfold events_of.
  destruct input as [[df| |]|]; cbn; try reflexivity.
  destruct (parse_columns df) as [|item cm]; cbn; [reflexivity|].
  destruct (calculate_rankings df (item :: cm)); reflexivity.
Qed.

Lemma run_keeps_input (w : world) :
  files (snd (run w)) "data/data.xlsx" = files w "data/data.xlsx".
Proof. now rewrite run_files, input_not_written. Qed.

Lemma calculate_rankings_nil (df : DataFrame) : calculate_rankings df [] = [].
Proof.
  apply length_zero_iff_nil. rewrite calculate_rankings_rows, flat_map_rows_length.
  induction (rows df) as [|row rs IH]; [reflexivity|]. cbn. exact IH.
Qed.

(** X13. When the input is a table with at least one ranked entry, the
    run ends without an exception, writes the text report and the chart,
    both from the summary as [sort_values] returns it, and leaves every
    other file as it was. *)
Theorem successful_run_writes_both (w : world) (df : DataFrame) :
  files w "data/data.xlsx" = Some (Workbook df) ->
  calculate_rankings df (parse_columns df) <> [] ->
  let course_stats :=
    sort_values_by_mean (course_stats_of (calculate_rankings df (parse_columns df))) in
  fst (run w) = inl tt
  /\ files (snd (run w)) "outputs/ranking.txt"
     = Some (Text (ranking_text to_string course_stats))
  /\ files (snd (run w)) "outputs/rank_order.png"
     = Some (Image (plot format_2f course_stats))
  /\ (forall p, p <> "outputs/ranking.txt" -> p <> "outputs/rank_order.png" ->
                files (snd (run w)) p = files w p)
  /\ written "outputs/ranking.txt" (events (files w "data/data.xlsx"))
     = Some (Text (ranking_text to_string course_stats)).
Proof.
  intros H Hne. cbv zeta.
  unfold main, bind, try_except, read_excel, makedirs, print, write, ret.
  unfold events_of.
  cbn. rewrite H. cbn.
  destruct (parse_columns df) as [|item cm] eqn:Ec;
    [elim Hne; apply calculate_rankings_nil|].
  destruct (calculate_rankings df (item :: cm)) as [|r rs]; [contradiction|].
  cbn. repeat split.
  intros p H1 H2.
  destruct (String.eqb_spec p "outputs/rank_order.png"); [contradiction|].
  destruct (String.eqb_spec p "outputs/ranking.txt"); [contradiction|]. reflexivity.
Qed.

(** X14. A run does not touch its input file, and a second run right
    after the first ends as the first did, prints and writes the same once
    more and leaves every file as the first run left it. *)
Theorem rerun_changes_no_file (w : world) :
  files (snd (run w)) "data/data.xlsx" = files w "data/data.xlsx"
  /\ fst (run (snd (run w))) = fst (run w)
  /\ (forall p, files (snd (run (snd (run w)))) p = files (snd (run w)) p)
  /\ exists t : list event,
      trace (snd (run w)) = trace w ++ t
      /\ trace (snd (run (snd (run w)))) = trace w ++ t ++ t.
Proof.
  pose proof (run_keeps_input w) as Hin.
  split; [exact Hin|]. split; [|split].
  - apply run_outcome. exact Hin.
  - intros p. rewrite (run_files _ _ _ _ (snd (run w))), Hin.
    rewrite (run_files _ _ _ _ w).
    destruct (written p (events (files w "data/data.xlsx"))); reflexivity.
  - exists (events (files w "data/data.xlsx")). split; [apply run_trace|].
    rewrite (run_trace _ _ _ _ (snd (run w))), Hin, (run_trace _ _ _ _ w).
    now rewrite app_assoc.
Qed.

(** X15. The directory [outputs] exists after every run, also after one
    that ends early or with an exception, and no directory is removed. *)
Theorem output_directory_is_made (w : world) :
  In "outputs" (dirs (snd (run w))) /\ incl (dirs w) (dirs (snd (run w))).
Proof.
  rewrite run_dirs. destruct (existsb (String.eqb "outputs") (dirs w)) eqn:E.
  - split; [|apply incl_refl].
    apply existsb_exists in E as (d & Hd & Ed). apply String.eqb_eq in Ed. now subst d.
  - split; [apply in_or_app; right; now left | apply incl_appl, incl_refl].
Qed.

End RunEffects.

(** The world [fresh_world] holds the table of the two respondents. *)
Lemma successful_run_writes_both_witness :
  let run := main (fun t => t) (fun _ => "table") (fun _ => "table") (fun _ => "0.00") in
  fst (run fresh_world) = inl tt
  /\ files (snd (run fresh_world)) "outputs/ranking.txt"
     = Some (Text ("Course Ranking (Based on Average Global Rank - Lower is Better)"
                   ++ newline
                   ++ "================================================================"
                   ++ newline ++ newline ++ "table")).
Proof.
  cbv zeta.
  pose proof (successful_run_writes_both
                (fun t => t) (fun _ => "table") (fun _ => "table") (fun _ => "0.00")
                fresh_world two_respondents eq_refl) as H.
  destruct H as (H1 & H2 & _); [vm_compute; discriminate|].
  split; [exact H1 | exact H2].
Defined.

(** ** Only the order of the raw ranks matters *)

Section RescaleFacts.

Variable f : Z -> Z.
Hypothesis f_increasing : forall a b : Z, (a < b)%Z -> (f a < f b)%Z.

Local Abbreviation fe := (rescale_entry f).

Lemma f_ltb (a b : Z) : (f a <? f b)%Z = (a <? b)%Z.
Proof.
  destruct (Z.ltb_spec a b) as [Hlt|Hge].
  - apply Z.ltb_lt. now apply f_increasing.
  - apply Z.ltb_ge. destruct (Z.eq_dec a b) as [->|Hne]; [lia|].
    apply Z.lt_le_incl, f_increasing. lia.
Qed.

Lemma getitem_rescale (cols : list string) (row : Series) (col : string) :
  getitem cols (map (rescale f) row) col = rescale f (getitem cols row col).
Proof.
  revert row. induction cols as [|c cols IH]; intros [|v row]; cbn; try reflexivity.
  destruct (String.eqb c col); [reflexivity | apply IH].
Qed.

Lemma entries_of_rescale (cols : list string) (row : Series) (cat : string) (cm : col_map_t) :
  entries_of cols (map (rescale f) row) cat cm = map fe (entries_of cols row cat cm).
Proof.
  unfold entries_of. induction cm as [|item cm IH]; [reflexivity|].
  cbn [flat_map]. rewrite map_app, IH, getitem_rescale. f_equal.
  destruct (getitem cols row (fst item)) as [|v]; cbn; [reflexivity|].
  destruct (String.eqb (fst (snd item)) cat); reflexivity.
Qed.

Lemma insert_rescale (x : entry) (l : list entry) :
  insert (fe x) (map fe l) = map fe (insert x l).
Proof.
  induction l as [|y l IH]; [reflexivity|]. cbn [map insert].
  unfold rescale_entry at 1 2. cbn [snd]. rewrite f_ltb.
  destruct (snd y <? snd x)%Z; cbn [map]; [now rewrite IH | reflexivity].
Qed.

Lemma sort_by_rank_rescale (l : list entry) :
  sort_by_rank (map fe l) = map fe (sort_by_rank l).
Proof.
  induction l as [|x l IH]; [reflexivity|].
  cbn [map sort_by_rank fold_right]. fold (sort_by_rank (map fe l)).
  fold (sort_by_rank l). now rewrite IH, insert_rescale.
Qed.

Lemma numbered_rescale (sid sid' : value) (n : nat) (l : list entry) :
  map course_rank (numbered sid n (map fe l)) = map course_rank (numbered sid' n l).
Proof.
  revert n. induction l as [|e l IH]; intros n; cbn; [reflexivity | now rewrite IH].
Qed.

(** X16. Only the order of the raw ranks matters, not their values: when
    every number of a row is replaced by its image under a strictly
    increasing function, the row gets the same courses under the same
    global ranks. *)
Theorem raw_ranks_matter_by_order_only
        (cols : list string) (col_map : col_map_t) (idx : nat) (row : Series) :
  map course_rank (row_records cols col_map idx (map (rescale f) row))
  = map course_rank (row_records cols col_map idx row).
Proof.
  pose proof (row_records_parts cols col_map idx (map (rescale f) row)) as H.
  cbv zeta in H. rewrite H.
  pose proof (row_records_parts cols col_map idx row) as H'. cbv zeta in H'. rewrite H'.
  rewrite !entries_of_rescale, !sort_by_rank_rescale, !length_map, !map_app.
  now rewrite !(numbered_rescale _ (student_of cols idx row)).
Qed.

End RescaleFacts.

(** Raw ranks 20, 10, 10 in place of 2, 1, 1. *)
Lemma raw_ranks_matter_by_order_only_witness :
  map course_rank
      (row_records (columns three_courses) (parse_columns three_courses) 0
                   (map (rescale (fun z => 10 * z)%Z) [Num 2; Num 1; Num 1]))
  = map course_rank
        (row_records (columns three_courses) (parse_columns three_courses) 0
                     [Num 2; Num 1; Num 1]).
Proof.
  apply (raw_ranks_matter_by_order_only (fun z => 10 * z)%Z). intros a b H. lia.
Defined.
